(** * MadMiner support utilities ([madminer/tools/utils.py])

    A shallow embedding of the four helpers of the module
    ([general_init], [call_command], [create_missing_folders] and
    [format_benchmark]) together with the properties their
    documentation states.  Python floats are IEEE 754 binary64 numbers
    and are modelled by Rocq's primitive floats; the file system, the
    logging configuration and the outcome of a shell command are explicit
    state. *)

From Stdlib Require Import ZArith Bool Lia.
From Stdlib Require Import Floats.PrimFloat Floats.FloatOps Floats.SpecFloat.
From Stdlib Require Import Numbers.DecimalString.
From Stdlib Require Import Strings.Ascii Strings.String.
From stdpp Require Import gmap strings list.

Set Default Proof Using "Type".
Local Open Scope Z_scope.

(** ** Exceptions and results *)

(** Where in the module an exception comes from.  [float(value)] may raise
    three classes of error; the others are raised at one place each. *)
Inductive conversion_error :=
| TypeError       (* float(None), float([]) ... *)
| ValueError      (* float('abc') *)
| OverflowError.  (* float(10**400) *)

Inductive mkdir_errno :=
| EEXIST     (* FileExistsError *)
| ENOENT     (* FileNotFoundError *)
| ENOTDIR.   (* NotADirectoryError *)

Inductive exn :=
| RuntimeError (msg : string)
    (* raise RuntimeError(...) in call_command *)
| OSError (msg : string)
    (* raise OSError(...) in create_missing_folders *)
| MkdirError (errno : mkdir_errno) (filename : list string)
    (* the OSError that os.mkdir raises inside os.makedirs *)
| IOError (filename : string)
    (* io.open(log_file, 'wb') failed *)
| ConversionError (kind : conversion_error)
    (* raised by float(value) *)
| PowOverflowError
    (* OverflowError raised by 10.**(-precision) *)
| FormatSpecError.
    (* ValueError raised by str.format on a bad precision *)

Inductive result (A : Type) :=
| Ok (a : A)
| Raise (e : exn).
Arguments Ok {A} a.
Arguments Raise {A} e.

(** Sequencing: an exception raised by the first computation is propagated
    uncaught.  This gives the notation [x ← r; k]. *)
#[global] Instance result_bind : MBind result := λ A B k r,
  match r with
  | Ok a => k a
  | Raise e => Raise e
  end.

#[global] Instance result_ret : MRet result := λ A, Ok.

(** ** Decimal text of integers *)

(** [str(n)] for a Python integer. *)
Definition str_int (n : Z) : string := NilZero.string_of_int (Z.to_int n).

Fixpoint zeros (n : nat) : string :=
  match n with
  | O => ""
  | S n => String "0"%char (zeros n)
  end.

(** Left padding with zeros up to [width] characters. *)
Definition zero_pad (width : nat) (s : string) : string :=
  zeros (width - String.length s) +:+ s.

(** ** Floats *)

(** A finite non-zero binary64 number [m * 2^e] as a fraction. *)
Definition magnitude (m : positive) (e : Z) : Z * Z :=
  if 0 <=? e then (Z.pos m * 2 ^ e, 1) else (Z.pos m, 2 ^ (- e)).

(** Nearest integer to [num / den], ties to the even neighbour
    ([0 <= num], [0 < den]). *)
Definition round_half_even (num den : Z) : Z :=
  let q := num / den in
  match 2 * (num mod den) ?= den with
  | Lt => q
  | Gt => q + 1
  | Eq => if Z.even q then q else q + 1
  end.

(** Nearest binary64 number to [num / den], ties to even
    ([0 < num], [0 < den]): the quotient is taken with 64 significant bits
    and a sticky bit, then rounded once. *)
Definition nearest_binary64 (num den : Z) : spec_float :=
  let k := Z.log2 den + 64 in
  let q := (num * 2 ^ k) / den in
  let sticky := if (num * 2 ^ k) mod den =? 0 then 0 else 1 in
  binary_normalize prec emax (2 * q + sticky) (- k - 1) false.

(** A Python integer converted to binary64: the nearest number, ties to
    even; an infinite result stands for one that does not fit. *)
Definition int_to_binary64 (n : Z) : spec_float :=
  binary_normalize prec emax n 0 false.

(** [float(n)] for a Python integer: OverflowError when it does not fit. *)
Definition int_to_float (n : Z) : result float :=
  match int_to_binary64 n with
  | S754_infinity _ => Raise (ConversionError OverflowError)
  | r => Ok (SF2Prim r)
  end.

(** The integer an integral binary64 number stands for. *)
Definition integral_value (w : spec_float) : Z :=
  match w with
  | S754_finite s m e =>
      let v := if 0 <=? e then Z.pos m * 2 ^ e else Z.pos m / 2 ^ (- e) in
      if s then - v else v
  | _ => 0
  end.

(** The binary64 number nearest to [10^n].  Beyond the range of binary64
    the result is fixed without computing the power: [10^309] and above
    round to infinity, [10^-401] and below to zero. *)
Definition pow10 (n : Z) : spec_float :=
  if 309 <=? n then S754_infinity false
  else if n <? -400 then S754_zero false
  else if 0 <=? n then binary_normalize prec emax (10 ^ n) 0 false
  else nearest_binary64 1 (10 ^ (- n)).

(** [10. ** w] for an integer [w]: the exponent is converted to a float
    (OverflowError when it does not fit), the power is taken by the C
    library, modelled as the nearest binary64 number, and an infinite
    result raises OverflowError while an underflow to zero does not. *)
Definition float_pow10 (w : Z) : result float :=
  match int_to_binary64 w with
  | S754_infinity _ => Raise PowOverflowError
  | fw =>
      match pow10 (integral_value fw) with
      | S754_infinity _ => Raise PowOverflowError
      | r => Ok (SF2Prim r)
      end
  end.

(** *** Text of a float under the 'f' and 'e' presentation types *)

Inductive presentation := Scientific | Fixed.

Definition sign_text (s : bool) : string := if s then "-" else "".

(** The digits of [n], a count of units of [10^-p], with the decimal point
    put back; no point is written when [p = 0]. *)
Definition fixed_point (p : Z) (n : Z) : string :=
  let s := zero_pad (Z.to_nat p + 1) (str_int n) in
  let k := (String.length s - Z.to_nat p)%nat in
  if p =? 0 then s
  else substring 0 k s +:+ "." +:+ substring k (Z.to_nat p) s.

(** Exponent [k] with [10^k <= num / den < 10^(k+1)]. *)
Definition decimal_exponent (num den : Z) : Z :=
  if den <=? num then Z.of_nat (String.length (str_int (num / den))) - 1
  else
    let t := Z.of_nat (String.length (str_int (den / num))) in
    if den <=? num * 10 ^ (t - 1) then - (t - 1) else - t.

(** [num / den * 10^n] as a fraction. *)
Definition scale10 (num den n : Z) : Z * Z :=
  if 0 <=? n then (num * 10 ^ n, den) else (num, den * 10 ^ (- n)).

Definition exponent_text (k : Z) : string :=
  (if k <? 0 then "-" else "+") +:+ zero_pad 2 (str_int (Z.abs k)).

(** ['{:.<p>f}'.format(x)]: correctly rounded, ties to even. *)
Definition format_f (p : Z) (x : float) : string :=
  match Prim2SF x with
  | S754_nan => "nan"
  | S754_infinity s => sign_text s +:+ "inf"
  | S754_zero s => sign_text s +:+ fixed_point p 0
  | S754_finite s m e =>
      let '(num, den) := magnitude m e in
      sign_text s +:+ fixed_point p (round_half_even (num * 10 ^ p) den)
  end.

(** ['{:.<p>e}'.format(x)]: one digit before the point, [p] after, and an
    exponent of at least two digits. *)
Definition format_e (p : Z) (x : float) : string :=
  match Prim2SF x with
  | S754_nan => "nan"
  | S754_infinity s => sign_text s +:+ "inf"
  | S754_zero s => sign_text s +:+ fixed_point p 0 +:+ "e+00"
  | S754_finite s m e =>
      let '(num, den) := magnitude m e in
      let k := decimal_exponent num den in
      let '(snum, sden) := scale10 num den (p - k) in
      let d := round_half_even snum sden in
      let '(d, k) := if d =? 10 ^ (p + 1) then (10 ^ p, k + 1) else (d, k) in
      sign_text s +:+ fixed_point p d +:+ "e" +:+ exponent_text k
  end.

Definition format_float (ty : presentation) (p : Z) (x : float) : string :=
  match ty with
  | Scientific => format_e p x
  | Fixed => format_f p x
  end.

(** The largest precision a format specification may carry (C's INT_MAX). *)
Definition INT_MAX : Z := 2147483647.

(** [(' = {0:.' + str(precision) + ty + '}').format(value)].  The
    specification is read back from the text: a negative precision puts a
    minus sign where digits are expected, and one above [INT_MAX] is too
    big; both raise ValueError. *)
Definition str_format (ty : presentation) (precision : Z) (value : float)
  : result string :=
  if (0 <=? precision) && (precision <=? INT_MAX)
  then Ok (" = " +:+ format_float ty precision value)
  else Raise FormatSpecError.

(** ** [format_benchmark] *)

(** A value stored in the mapping.  The function only ever looks at a
    value through [float(value)], so an object of any other type (a string,
    a NumPy scalar, a list ...) is given by what [float] does with it. *)
Inductive pyvalue :=
| PyFloat (x : float)
| PyInt (n : Z)
| PyBool (b : bool)
| PyNone
| PyObject (conv : conversion_error + float).

(** [float(value)] *)
Definition py_float (value : pyvalue) : result float :=
  match value with
  | PyFloat x => Ok x
  | PyInt n => int_to_float n
  | PyBool b => Ok (if b then 1 else 0)%float
  | PyNone => Raise (ConversionError TypeError)
  | PyObject (inl kind) => Raise (ConversionError kind)
  | PyObject (inr x) => Ok x
  end.

(** The mapping, as the sequence of items that iterating over it yields;
    keys are the parameter names. *)
Definition parameters := list (string * pyvalue).

(** The body of the [for] loop, run on the items that are left; [i] is
    the index [enumerate] gives to the first of them and [output] the text
    built so far. *)
Fixpoint format_benchmark_loop (precision : Z) (items : parameters)
    (i : nat) (output : string) : result string :=
  match items with
  | [] => Ok output
  | (key, value) :: items =>
      let output := if (0 <? i)%nat then output +:+ ", " else output in
      value ← py_float value;
      threshold ← float_pow10 (- precision);
      if (value <? 2 * threshold)%float || (100 <? value)%float then
        text ← str_format Scientific precision value;
        format_benchmark_loop precision items (S i) (output +:+ key +:+ text)
      else
        text ← str_format Fixed precision value;
        format_benchmark_loop precision items (S i) (output +:+ key +:+ text)
  end.

Definition format_benchmark (params : parameters) (precision : Z)
  : result string :=
  format_benchmark_loop precision params 0 "".


(** *** What the loop computes, entry by entry *)

(** [2. * 10.**(-precision)], for a precision at which the power does not
    raise. *)
Definition threshold (precision : Z) : float :=
  (2 * SF2Prim (pow10 (- precision)))%float.

(** The presentation type that the [if] of the loop body picks. *)
Definition notation (precision : Z) (x : float) : presentation :=
  if (x <? threshold precision)%float || (100 <? x)%float
  then Scientific else Fixed.


(** The text of one entry: [name = digits]. *)
Definition entry_text (precision : Z) (key : string) (x : float) : string :=
  key +:+ " = " +:+ format_float (notation precision x) precision x.

(** [float(value)] succeeds. *)
Definition convertible (value : pyvalue) : bool :=
  match py_float value with
  | Ok _ => true
  | Raise _ => false
  end.

Definition is_infinity (x : spec_float) : bool :=
  match x with
  | S754_infinity _ => true
  | _ => false
  end.

(** The values of a mapping all convert, to the floats of [items]. *)
Definition converts_to (params : parameters) (items : list (string * float))
  : Prop :=
  Forall2 (λ kv kx, kv.1 = kx.1 ∧ py_float kv.2 = Ok kx.2) params items.

(** ** The file system and [create_missing_folders] *)

(** A path is the list of its components, innermost first, so that the
    parent directory is the tail: ["a/b/c"] is [["c"; "b"; "a"]].  Paths are
    relative to the working directory, which exists and is not part of the
    state; the empty list is the empty string, which names nothing.  There
    are no ["."] or [".."] components and no symbolic links. *)
Abbreviation path := (list string).

(** What [os.stat] finds at a path: a directory, or anything else. *)
Inductive node := File | Dir.

#[global] Instance node_eq_dec : EqDecision node.
Proof. solve_decision. Defined.

(** The state of the file system maps the paths that exist to what is
    there.  In a real tree everything that exists lies in a directory. *)
Definition fs_wf (fs : gmap path node) : Prop :=
  map_Forall (λ p _,
    match p with
    | [] => False
    | [_] => True
    | _ :: head => fs !! head = Some Dir
    end) fs.

(** [os.path.join] of the components. *)
Definition path_str (p : path) : string := String.concat "/" (reverse p).

(** Code that reads and changes the file system and may raise; what has
    been changed stays changed when it raises. *)
Definition fsio (A : Type) : Type :=
  gmap path node → result A * gmap path node.

#[global] Instance fsio_ret : MRet fsio := λ A a fs, (Ok a, fs).

#[global] Instance fsio_bind : MBind fsio := λ A B k m fs,
  match m fs with
  | (Ok a, fs) => k a fs
  | (Raise e, fs) => (Raise e, fs)
  end.

Definition raise {A} (e : exn) : fsio A := λ fs, (Raise e, fs).

(** [os.path.exists] and [os.path.isdir] *)
Definition path_exists (p : path) : fsio bool := λ fs,
  (Ok (bool_decide (is_Some (fs !! p))), fs).

Definition path_isdir (p : path) : fsio bool := λ fs,
  (Ok (bool_decide (fs !! p = Some Dir)), fs).

(** [os.mkdir]: the parent has to be a directory and the name free. *)
Definition mkdir (name : path) : fsio () := λ fs,
  match name with
  | [] => (Raise (MkdirError ENOENT name), fs)
  | _ :: head =>
      match head, fs !! head with
      | _ :: _, None => (Raise (MkdirError ENOENT name), fs)
      | _ :: _, Some File => (Raise (MkdirError ENOTDIR name), fs)
      | _, _ =>
          if bool_decide (is_Some (fs !! name))
          then (Raise (MkdirError EEXIST name), fs)
          else (Ok (), <[name := Dir]> fs)
      end
  end.

(** [os.makedirs(name)], with [exist_ok] left at [False]: the parent is
    made first when there is one and it does not exist, a FileExistsError
    from that is passed over, and then the leaf is made. *)
Fixpoint makedirs (name : path) : fsio () :=
  match name with
  | [] => mkdir name
  | _ :: head =>
      head_exists ← path_exists head;
      (if bool_decide (head ≠ []) && negb head_exists then
         λ fs, match makedirs head fs with
               | (Raise (MkdirError EEXIST _), fs) => (Ok (), fs)
               | r => r
               end
       else mret ());;
      mkdir name
  end.

Definition no_directory_message (folder : path) : string :=
  "Path " +:+ path_str folder +:+ " exists, but is no directory!".

Fixpoint create_missing_folders (folders : list path) : fsio () :=
  match folders with
  | [] => mret ()
  | folder :: folders =>
      found ← path_exists folder;
      (if negb found then makedirs folder
       else
         is_dir ← path_isdir folder;
         if negb is_dir then raise (OSError (no_directory_message folder))
         else mret ());;
      create_missing_folders folders
  end.

(** The exceptions that are OS-level errors. *)
Definition is_os_error (e : exn) : bool :=
  match e with
  | OSError _ | MkdirError _ _ => true
  | _ => false
  end.

(** Two small trees for the examples: one that holds the regular file
    ["existing_file.txt"] and nothing else, and the directories ["a"],
    ["a/b"] and ["a/b/c"]. *)
Definition fs_one_file : gmap path node :=
  <[ ["existing_file.txt"] := File ]> ∅.

Definition fs_abc : gmap path node :=
  <[ ["c"; "b"; "a"] := Dir ]> (<[ ["b"; "a"] := Dir ]> (<[ ["a"] := Dir ]> ∅)).

(** ** Running a command: [call_command] *)

(** What is left of a process once it has ended: its exit status, and the
    bytes it wrote to the two pipes (nothing, when both streams go to a
    file). *)
Record completed := {
  returncode : Z;
  stdout_data : string;
  stderr_data : string
}.

(** The world outside the interpreter: what the shell does with a command,
    given where its output goes, and which files can be opened for
    writing.  What ends up in the log file is not followed. *)
Record system := {
  shell : string → option string → completed;
  can_open : string → bool
}.

Definition quote1 : ascii := ascii_of_nat 39.     (* ' *)
Definition quote2 : ascii := ascii_of_nat 34.     (* the double quote *)
Definition backslash : ascii := ascii_of_nat 92.
Definition newline : string := String (ascii_of_nat 10) "".

Fixpoint occurs (c : ascii) (s : string) : bool :=
  match s with
  | EmptyString => false
  | String x s => bool_decide (x = c) || occurs c s
  end.

Definition hex_digit (n : nat) : ascii :=
  ascii_of_nat (if (n <? 10)%nat then 48 + n else 87 + n).

(** One byte inside a bytes literal. *)
Definition escape_byte (quote c : ascii) : string :=
  let n := nat_of_ascii c in
  if bool_decide (c = quote) || bool_decide (c = backslash)
  then String backslash (String c "")
  else if (n =? 9)%nat then String backslash "t"
  else if (n =? 10)%nat then String backslash "n"
  else if (n =? 13)%nat then String backslash "r"
  else if (n <? 32)%nat || (127 <=? n)%nat
  then String backslash
         (String "x" (String (hex_digit (n / 16)) (String (hex_digit (n mod 16)) "")))
  else String c "".

Fixpoint escape_bytes (quote : ascii) (s : string) : string :=
  match s with
  | EmptyString => ""
  | String c s => escape_byte quote c +:+ escape_bytes quote s
  end.

(** What [str.format] puts in place of [{}] for a bytes object under
    Python 3: the literal [b'...'], in double quotes when the bytes hold a
    single quote and no double quote. *)
Definition bytes_repr (s : string) : string :=
  let quote := if occurs quote1 s && negb (occurs quote2 s)
               then quote2 else quote1 in
  "b" +:+ String quote (escape_bytes quote s +:+ String quote "").

(** The two messages of the [RuntimeError]. *)
Definition log_message (cmd : string) (exitcode : Z) (log_file : string)
  : string :=
  "Calling command " +:+ cmd +:+ " returned exit code " +:+ str_int exitcode
  +:+ ". Output in file " +:+ log_file +:+ ".".

Definition pipe_message (cmd : string) (exitcode : Z) (out err : string)
  : string :=
  "Calling command " +:+ cmd +:+ " returned exit code " +:+ str_int exitcode
  +:+ "." +:+ newline +:+ newline +:+ "Std output:" +:+ newline +:+ newline
  +:+ bytes_repr out +:+ "Error output:" +:+ newline +:+ newline
  +:+ bytes_repr err.

Definition call_command (sys : system) (cmd : string)
    (log_file : option string) : result Z :=
  match log_file with
  | Some path =>
      if can_open sys path then
        let proc := shell sys cmd (Some path) in
        let exitcode := returncode proc in
        if negb (exitcode =? 0)
        then Raise (RuntimeError (log_message cmd exitcode path))
        else Ok exitcode
      else Raise (IOError path)
  | None =>
      let proc := shell sys cmd None in
      let out := stdout_data proc in
      let err := stderr_data proc in
      let exitcode := returncode proc in
      if negb (exitcode =? 0)
      then Raise (RuntimeError (pipe_message cmd exitcode out err))
      else Ok exitcode
  end.

(** [sub] occurs in [s]. *)
Definition contains (sub s : string) : Prop :=
  ∃ pre post, s = pre +:+ sub +:+ post.

(** A shell for the examples: it knows [true], [exit 7] and a command that
    prints on both streams before it fails. *)
Definition sh (cmd : string) (redirect : option string) : completed :=
  if bool_decide (cmd = "true") then
    {| returncode := 0; stdout_data := ""; stderr_data := "" |}
  else if bool_decide (cmd = "exit 7") then
    {| returncode := 7; stdout_data := ""; stderr_data := "" |}
  else
    {| returncode := 2;
       stdout_data := match redirect with
                      | None => "listing" +:+ newline
                      | Some _ => ""
                      end;
       stderr_data := match redirect with
                      | None => "can't open" +:+ newline
                      | Some _ => ""
                      end |}.

Definition example_system : system :=
  {| shell := sh; can_open := λ path, negb (bool_decide (path = "")) |}.

(** Printable ASCII other than the quotes and the backslash: the bytes a
    bytes literal shows as they are. *)
Definition plain_byte (c : ascii) : bool :=
  let n := nat_of_ascii c in
  (32 <=? n)%nat && (n <? 127)%nat
  && negb (bool_decide (c = quote1)) && negb (bool_decide (c = quote2))
  && negb (bool_decide (c = backslash)).

Fixpoint plain_text (s : string) : bool :=
  match s with
  | EmptyString => true
  | String c s => plain_byte c && plain_text s
  end.

(** A system whose commands all fail with status 3 after a line of plain
    text on each stream, without the final newline. *)
Definition plain_system : system :=
  {| shell := λ _ _, {| returncode := 3;
                        stdout_data := "partial result";
                        stderr_data := "no such table" |};
     can_open := λ _, true |}.



(** ** Logging and [general_init] *)

(** The numeric levels of the [logging] module. *)
Definition DEBUG : Z := 10.
Definition INFO : Z := 20.
Definition WARNING : Z := 30.

(** A handler of the root logger, with the format and the date format of
    its formatter. *)
Record handler := {
  handler_format : string;
  handler_datefmt : option string
}.

(** The process-wide state the function touches: the level and the handlers
    of the root logger, the level below which [logging.disable] silences
    everything, the messages handed to the handlers so far (oldest first),
    and the formatter NumPy uses to print floats. *)
Record runtime := {
  root_level : Z;
  root_handlers : list handler;
  manager_disable : Z;
  records : list string;
  float_kind : option (float → string)
}.

(** A process in which nothing has configured logging yet. *)
Definition fresh_runtime : runtime :=
  {| root_level := WARNING; root_handlers := []; manager_disable := 0;
     records := []; float_kind := None |}.

(** [logging.basicConfig(format=..., datefmt=..., level=...)]: it does
    nothing when the root logger already has a handler; otherwise it
    installs a stream handler with the formatter and sets the level, when
    one is given. *)
Definition basicConfig (format : string) (datefmt : option string)
    (level : option Z) (rt : runtime) : runtime :=
  match root_handlers rt with
  | [] =>
      {| root_level := default (root_level rt) level;
         root_handlers := [ {| handler_format := format;
                               handler_datefmt := datefmt |} ];
         manager_disable := manager_disable rt;
         records := records rt;
         float_kind := float_kind rt |}
  | _ :: _ => rt
  end.

Definition BASIC_FORMAT : string := "%(levelname)s:%(name)s:%(message)s".

(** [logging.info(msg)]: the root logger is given a default handler when it
    has none, and the message goes to the handlers when INFO is enabled. *)
Definition logging_info (msg : string) (rt : runtime) : runtime :=
  let rt := match root_handlers rt with
            | [] => basicConfig BASIC_FORMAT None None rt
            | _ :: _ => rt
            end in
  if (manager_disable rt <? INFO) && (root_level rt <=? INFO) then
    {| root_level := root_level rt;
       root_handlers := root_handlers rt;
       manager_disable := manager_disable rt;
       records := records rt ++ [msg];
       float_kind := float_kind rt |}
  else rt.

(** [np.set_printoptions(formatter={'float_kind': f})] *)
Definition set_printoptions (f : float → string) (rt : runtime) : runtime :=
  {| root_level := root_level rt;
     root_handlers := root_handlers rt;
     manager_disable := manager_disable rt;
     records := records rt;
     float_kind := Some f |}.

(** The messages of the banner, in the order of the calls. *)
Definition banner : list string :=
  [ "";
    "------------------------------------------------------------";
    "|                                                          |";
    "|  MadMiner                                                |";
    "|                                                          |";
    "|  Version from July 5, 2018                               |";
    "|                                                          |";
    "|           Johann Brehmer, Kyle Cranmer, and Felix Kling  |";
    "|                                                          |";
    "------------------------------------------------------------";
    "";
    "Hi! How are you today?" ].

(** [general_init(debug)].  No call in it raises; the float formatter is
    the function ["%.2f" % x]. *)
Definition general_init (debug : bool) (rt : runtime) : result () * runtime :=
  let rt := basicConfig "%(asctime)s  %(message)s" (Some "%H:%m")
              (Some (if debug then DEBUG else INFO)) rt in
  let rt := foldl (λ rt msg, logging_info msg rt) rt banner in
  let rt := set_printoptions (format_f 2) rt in
  (Ok (), rt).

(** A path that cannot be made a directory: it is the empty path, or it or
    one of its ancestors exists and is not a directory. *)
Definition blocked (fs : gmap path node) (p : path) : Prop :=
  p = [] ∨ ∃ q, q `suffix_of` p ∧ fs !! q = Some File.

(** ** Integers that binary64 holds exactly *)

Lemma digits2_pos_iter_xO (m d : positive) :
  digits2_pos (Pos.iter xO m d) = (digits2_pos m + d)%positive.
Proof.
  induction d as [|d IH] using Pos.peano_ind.
  - simpl. lia.
  - rewrite Pos.iter_succ. simpl. rewrite IH. lia.
Qed.

Lemma Zpos_iter_xO (m d : positive) :
  Z.pos (Pos.iter xO m d) = Z.pos m * 2 ^ Z.pos d.
Proof.
  induction d as [|d IH] using Pos.peano_ind.
  - simpl. lia.
  - rewrite Pos.iter_succ, Pos2Z.inj_succ, Z.pow_succ_r by lia.
    rewrite Pos2Z.inj_xO, IH. lia.
Qed.

Lemma digits2_pos_size (m : positive) : digits2_pos m = Pos.size m.
Proof. induction m; simpl; congruence. Qed.

Lemma digits2_pos_bound (m : positive) :
  Z.pos m < 2 ^ 53 → Z.pos (digits2_pos m) <= 53.
Proof.
  intros Hm. rewrite digits2_pos_size.
  destruct (Z_le_gt_dec (Z.pos (Pos.size m)) 53) as [|Hgt]; [done|].
  pose proof (Pos.size_le m) as Hle.
  assert (2 ^ 54 <= Z.pos (2 ^ Pos.size m)).
  { rewrite Pos2Z.inj_pow. apply Z.pow_le_mono_r; lia. }
  lia.
Qed.

Lemma binary_round_aux_canonical (s : bool) (m : positive) (e : Z) :
  Z.pos (digits2_pos m) = 53 → -1074 <= e <= 971 →
  binary_round_aux prec emax s (Z.pos m) e loc_Exact = S754_finite s m e.
Proof.
  intros Hd He. unfold binary_round_aux.
  assert (Hshr : shr_fexp prec emax (Z.pos m) e loc_Exact
                 = ({| shr_m := Z.pos m; shr_r := false; shr_s := false |}, e)).
  { unfold shr_fexp, fexp, emin, prec, emax. simpl Zdigits2. rewrite Hd.
    replace (Z.max (53 + e - 53) (3 - 1024 - 53) - e) with 0 by lia.
    reflexivity. }
  rewrite Hshr. simpl. rewrite Hshr. simpl.
  unfold emax, prec. destruct (Z.leb_spec e (1024 - 53)); [done|lia].
Qed.

Lemma binary_round_exact (s : bool) (m : positive) :
  Z.pos m < 2 ^ 53 →
  ∃ m' e', binary_round prec emax s m 0 = S754_finite s m' e'
           ∧ integral_value (S754_finite s m' e')
             = if s then - Z.pos m else Z.pos m.
Proof.
  intros Hm. pose proof (digits2_pos_bound m Hm) as Hd.
  unfold binary_round, shl_align, fexp, emin.
  replace (Z.max (Z.pos (digits2_pos m) + 0 - prec) (3 - emax - prec) - 0)
    with (Z.pos (digits2_pos m) - 53) by (unfold prec, emax; lia).
  replace (Z.max (Z.pos (digits2_pos m) + 0 - prec) (3 - emax - prec))
    with (Z.pos (digits2_pos m) - 53) by (unfold prec, emax; lia).
  destruct (Z.pos (digits2_pos m) - 53) as [|d|d] eqn:Hsub; [|lia|].
  - exists m, 0. split.
    + apply binary_round_aux_canonical; lia.
    + simpl. destruct s; lia.
  - exists (Pos.iter xO m d), (Z.neg d). split.
    + apply binary_round_aux_canonical; [|lia].
      rewrite digits2_pos_iter_xO. lia.
    + unfold integral_value. simpl (0 <=? Z.neg d).
      rewrite Zpos_iter_xO. simpl (- Z.neg d).
      rewrite Z.div_mul by lia. done.
Qed.

Lemma int_to_binary64_exact (n : Z) :
  Z.abs n < 2 ^ 53 →
  (∀ s, int_to_binary64 n ≠ S754_infinity s)
  ∧ integral_value (int_to_binary64 n) = n.
Proof.
  intros Hn. unfold int_to_binary64, binary_normalize.
  destruct n as [|m|m].
  - done.
  - destruct (binary_round_exact false m) as (m' & e' & -> & Hv); [lia|].
    split; [done|]. rewrite Hv. done.
  - destruct (binary_round_exact true m) as (m' & e' & -> & Hv); [lia|].
    split; [done|]. rewrite Hv. done.
Qed.


Lemma pow10_small_finite (n : Z) : n <= 0 → is_infinity (pow10 n) = false.
Proof.
  intros Hn. destruct (Z.ltb_spec n (-400)) as [Hlt|Hge].
  - unfold pow10. destruct (Z.leb_spec 309 n); [lia|].
    destruct (Z.ltb_spec n (-400)); [done|lia].
  - assert (Hall : forallb (λ k, negb (is_infinity (pow10 (- Z.of_nat k))))
                     (seq 0 401) = true) by (vm_compute; reflexivity).
    rewrite forallb_forall in Hall.
    specialize (Hall (Z.to_nat (- n))).
    rewrite Z2Nat.id, Z.opp_involutive in Hall by lia.
    apply negb_true_iff, Hall, in_seq. lia.
Qed.

Lemma float_pow10_precision (precision : Z) :
  0 <= precision <= INT_MAX →
  float_pow10 (- precision) = Ok (SF2Prim (pow10 (- precision))).
Proof.
  intros Hp. unfold float_pow10.
  destruct (int_to_binary64_exact (- precision)) as [Hfin Hval].
  { unfold INT_MAX in Hp. lia. }
  pose proof (pow10_small_finite (- precision)) as Hpow.
  destruct (int_to_binary64 (- precision)) as [s|s| |s m e];
    [| by destruct (Hfin s) | |]; rewrite Hval;
    destruct (pow10 (- precision)); simpl in Hpow; (done || lia).
Qed.


(** ** The loop of [format_benchmark] *)

Lemma string_app_nil_l (s : string) : "" +:+ s = s.
Proof. reflexivity. Qed.

Lemma string_app_cons (x : ascii) (a b : string) :
  String x a +:+ b = String x (a +:+ b).
Proof. reflexivity. Qed.

Lemma string_app_nil_r (s : string) : s +:+ "" = s.
Proof.
  induction s as [|x s IH]; [done|]. by rewrite string_app_cons, IH.
Qed.

Lemma string_app_assoc (a b c : string) : (a +:+ b) +:+ c = a +:+ b +:+ c.
Proof.
  induction a as [|x a IH]; [done|]. by rewrite !string_app_cons, IH.
Qed.

(** One turn of the loop is the formatting of a one-entry mapping, appended
    to the output after the separator. *)
Lemma format_benchmark_loop_cons precision kv items i output :
  format_benchmark_loop precision (kv :: items) i output
  = text ← format_benchmark [kv] precision;
    format_benchmark_loop precision items (S i)
      ((if (0 <? i)%nat then output +:+ ", " else output) +:+ text).
Proof.
  destruct kv as [key value]. unfold format_benchmark. simpl.
  destruct (py_float value) as [x|e]; simpl; [|done].
  destruct (float_pow10 (- precision)) as [t|e]; simpl; [|done].
  destruct ((x <? 2 * t)%float || (100 <? x)%float);
    destruct (str_format _ precision x) as [text|e]; simpl;
    by rewrite ?string_app_nil_l.
Qed.

(** A one-entry mapping with a convertible value and a usable precision. *)
Lemma format_benchmark_single precision key value x :
  0 <= precision <= INT_MAX → py_float value = Ok x →
  format_benchmark [(key, value)] precision = Ok (entry_text precision key x).
Proof.
  intros Hp Hx. unfold format_benchmark. simpl. rewrite Hx. simpl.
  rewrite (float_pow10_precision _ Hp). simpl.
  unfold entry_text, notation, threshold, str_format.
  destruct (Z.leb_spec 0 precision); [|lia].
  destruct (Z.leb_spec precision INT_MAX); [|lia]. simpl.
  destruct ((x <? _)%float || (100 <? x)%float); simpl;
    by rewrite ?string_app_nil_l.
Qed.

(** A one-entry mapping whose value does not convert. *)
Lemma format_benchmark_single_raise precision key value e :
  py_float value = Raise e →
  format_benchmark [(key, value)] precision = Raise e.
Proof. intros Hx. unfold format_benchmark. simpl. by rewrite Hx. Qed.

Lemma py_float_raise value e :
  py_float value = Raise e → ∃ kind, e = ConversionError kind.
Proof.
  destruct value as [x|n|b| |[kind|x]]; simpl; try done.
  - unfold int_to_float. destruct (int_to_binary64 n); try done.
    intros [= <-]. by eexists.
  - intros [= <-]. by eexists.
  - intros [= <-]. by eexists.
Qed.

Lemma concat_separated (text : string) (texts : list string) :
  String.concat ", " (text :: texts)
  = text +:+ String.concat "" (map (String.append ", ") texts).
Proof.
  revert text. induction texts as [|t texts IH]; intros text.
  - simpl. by rewrite string_app_nil_r.
  - change (String.concat ", " (text :: t :: texts))
      with (text +:+ ", " +:+ String.concat ", " (t :: texts)).
    rewrite IH. simpl map.
    destruct texts as [|t' texts]; simpl.
    + by rewrite string_app_nil_r.
    + by rewrite !string_app_assoc.
Qed.

(** After the first entry every entry is appended behind a separator. *)
Lemma format_benchmark_loop_tail precision items i output :
  format_benchmark_loop precision items (S i) output
  = texts ← mapM (λ kv, format_benchmark [kv] precision) items;
    Ok (output +:+ String.concat "" (map (String.append ", ") texts)).
Proof.
  revert i output. induction items as [|kv items IH]; intros i output.
  - simpl. by rewrite string_app_nil_r.
  - rewrite format_benchmark_loop_cons. simpl mapM.
    destruct (format_benchmark [kv] precision) as [text|e]; simpl; [|done].
    rewrite IH.
    destruct (mapM _ items) as [texts|e]; simpl; [|done].
    f_equal. change (0 <? S i)%nat with true. cbv iota.
    destruct texts as [|t texts]; simpl.
    + by rewrite string_app_nil_r, string_app_assoc.
    + by rewrite !string_app_assoc, string_app_nil_l.
Qed.

(** The whole loop: the texts of the entries, each rendered on its own,
    joined with the separator. *)
Lemma format_benchmark_texts params precision :
  format_benchmark params precision
  = texts ← mapM (λ kv, format_benchmark [kv] precision) params;
    Ok (String.concat ", " texts).
Proof.
  destruct params as [|kv items]; [done|].
  unfold format_benchmark at 1. rewrite format_benchmark_loop_cons.
  simpl mapM.
  destruct (format_benchmark [kv] precision) as [text|e]; simpl; [|done].
  rewrite format_benchmark_loop_tail.
  destruct (mapM _ items) as [texts|e]; simpl; [|done].
  by rewrite string_app_nil_l, <- concat_separated.
Qed.

(** ** Properties of [format_benchmark] *)


Lemma mapM_format_benchmark params items precision :
  0 <= precision <= INT_MAX → converts_to params items →
  mapM (λ kv, format_benchmark [kv] precision) params
  = Ok (map (λ kx, entry_text precision kx.1 kx.2) items).
Proof.
  intros Hp. induction 1 as [|[key value] [key' x] params items [Hk Hx] _ IH].
  - done.
  - simpl in Hk, Hx. subst key'. simpl mapM.
    rewrite (format_benchmark_single _ _ _ x Hp Hx). simpl.
    by rewrite IH.
Qed.




(** C4: the two bounds are strict.  At precision 2 the float written 0.02
    is not below [2 * 10^-2] and 100 is not above 100, so both come out in
    fixed-point notation, as does 50; 150 comes out in scientific
    notation. *)
Theorem format_benchmark_boundaries :
  format_benchmark [("x", PyFloat 0x1.47ae147ae147bp-6)] 2 = Ok "x = 0.02"
  ∧ format_benchmark [("x", PyFloat 100)] 2 = Ok "x = 100.00"
  ∧ format_benchmark [("x", PyFloat 50)] 2 = Ok "x = 50.00"
  ∧ format_benchmark [("x", PyFloat 150)] 2 = Ok "x = 1.50e+02".
Proof. vm_compute. repeat split. Qed.

(** C7, as the code has it: with a precision from 0 to [INT_MAX], a mapping
    that holds a value [float] cannot convert fails with the exception that
    [float] raises on the first such value, a conversion error, and nothing
    catches it; a mapping whose values all convert never raises. *)
Theorem format_benchmark_conversion (precision : Z) :
  0 <= precision <= INT_MAX →
  (∀ pre kv suf e,
     Forall (λ kv, convertible kv.2 = true) pre →
     py_float kv.2 = Raise e →
     format_benchmark (pre ++ kv :: suf) precision = Raise e
     ∧ ∃ kind, e = ConversionError kind)
  ∧ (∀ params,
       Exists (λ kv, convertible kv.2 = false) params →
       ∃ kind, format_benchmark params precision
               = Raise (ConversionError kind))
  ∧ (∀ params,
       Forall (λ kv, convertible kv.2 = true) params →
       ∃ text, format_benchmark params precision = Ok text).
Proof.
  intros Hp.
  assert (Hgood : ∀ params, Forall (λ kv, convertible kv.2 = true) params →
            ∃ items, converts_to params items).
  { induction 1 as [|[key value] params Hc _ [items IH]].
    - exists []. constructor.
    - unfold convertible in Hc. simpl in Hc.
      destruct (py_float value) as [x|] eqn:Hx; [|done].
      exists ((key, x) :: items). by constructor. }
  assert (Hfirst : ∀ pre kv suf e,
            Forall (λ kv, convertible kv.2 = true) pre →
            py_float kv.2 = Raise e →
            format_benchmark (pre ++ kv :: suf) precision = Raise e).
  { intros pre [key value] suf e Hpre He. simpl in He.
    destruct (Hgood pre Hpre) as [items Hitems].
    rewrite format_benchmark_texts.
    assert (Hm : mapM (λ kv, format_benchmark [kv] precision)
                   (pre ++ (key, value) :: suf) = Raise e).
    { clear Hpre. induction Hitems as [|[k v] [k' x] pre items [Hk Hx] _ IH].
      - simpl. by rewrite (format_benchmark_single_raise _ _ _ _ He).
      - simpl in Hk, Hx. simpl.
        rewrite (format_benchmark_single _ _ _ x Hp Hx). simpl.
        by rewrite IH. }
    by rewrite Hm. }
  split; [|split].
  - intros pre kv suf e Hpre He. split; [by apply Hfirst|].
    by apply py_float_raise in He.
  - intros params Hex.
    assert (∃ pre kv suf, params = pre ++ kv :: suf
              ∧ Forall (λ kv, convertible kv.2 = true) pre
              ∧ convertible kv.2 = false) as (pre & kv & suf & -> & Hpre & Hkv).
    { clear Hgood Hfirst. induction params as [|kv params IH].
      - by apply Exists_nil in Hex.
      - destruct (convertible kv.2) eqn:Hc.
        + apply Exists_cons in Hex as [Hex|Hex]; [congruence|].
          destruct (IH Hex) as (pre & kv' & suf & -> & Hpre & Hkv).
          exists (kv :: pre), kv', suf. split; [done|]. split; [|done].
          by constructor.
        + exists [], kv, params. by repeat split. }
    unfold convertible in Hkv.
    destruct (py_float kv.2) as [|e] eqn:He; [done|].
    destruct (py_float_raise _ _ He) as [kind ->].
    exists kind. by apply Hfirst.
  - intros params Hall. destruct (Hgood params Hall) as [items Hitems].
    eexists. rewrite format_benchmark_texts.
    by rewrite (mapM_format_benchmark _ _ _ Hp Hitems).
Qed.

Lemma format_benchmark_conversion_witness :
  0 <= 2 <= INT_MAX
  ∧ format_benchmark [("a", PyFloat 1); ("b", PyNone); ("c", PyInt 2)] 2
    = Raise (ConversionError TypeError)
  ∧ ∃ text, format_benchmark [("a", PyFloat 1); ("c", PyInt 2)] 2 = Ok text.
Proof.
  assert (Hp : 0 <= 2 <= INT_MAX) by (unfold INT_MAX; lia).
  destruct (format_benchmark_conversion 2 Hp) as (Hfirst & _ & Hall).
  split; [exact Hp|]. split.
  - apply (Hfirst [("a", PyFloat 1)] ("b", PyNone) [("c", PyInt 2)]).
    + repeat constructor.
    + reflexivity.
  - apply Hall. repeat constructor.
Defined.

(** C7 as documented fails when the precision is not one a format
    specification can carry: every value converts, and the call raises all
    the same, from the formatting step. *)
Lemma format_benchmark_raises_on_bad_precision :
  Forall (λ kv, convertible kv.2 = true) [("x", PyFloat 1)]
  ∧ format_benchmark [("x", PyFloat 1)] (-1) = Raise FormatSpecError
  ∧ ¬ (∀ params precision,
         Forall (λ kv : string * pyvalue, convertible kv.2 = true) params →
         ∃ text, format_benchmark params precision = Ok text).
Proof.
  split; [repeat constructor|]. split; [reflexivity|].
  intros H. destruct (H [("x", PyFloat 1)] (-1)) as [text Ht].
  - repeat constructor.
  - discriminate Ht.
Qed.

(** C9: on an empty mapping the loop body never runs and the result is the
    empty string, whatever the precision, which is never looked at. *)
Theorem format_benchmark_empty (precision : Z) :
  format_benchmark [] precision = Ok "".
Proof. reflexivity. Qed.

(** ** Directory creation *)

(** What a call leaves behind: everything that was there is still there
    unchanged, and whatever is new is a directory at [name] or at one of
    its ancestors. *)
Definition grows_towards (names : list path) (fs fs' : gmap path node)
  : Prop :=
  fs ⊆ fs'
  ∧ ∀ q, fs !! q = None → is_Some (fs' !! q) →
         fs' !! q = Some Dir ∧ ∃ p, p ∈ names ∧ q `suffix_of` p.

Lemma grows_towards_refl names fs : grows_towards names fs fs.
Proof.
  split; [done|]. intros q Hq [n Hn]. congruence.
Qed.

Lemma grows_towards_trans names fs1 fs2 fs3 :
  grows_towards names fs1 fs2 → grows_towards names fs2 fs3 →
  grows_towards names fs1 fs3.
Proof.
  intros [Hsub1 Hnew1] [Hsub2 Hnew2]. split; [by etrans|].
  intros q Hq Hq3. destruct (fs2 !! q) as [n|] eqn:Hq2.
  - destruct (Hnew1 q Hq) as [Hd Hp]; [by eexists|].
    split; [|done]. apply (lookup_weaken _ _ _ _ Hd Hsub2).
  - by apply Hnew2.
Qed.

Lemma grows_towards_mono names names' fs fs' :
  (∀ p q, p ∈ names → q `suffix_of` p →
          ∃ p', p' ∈ names' ∧ q `suffix_of` p') →
  grows_towards names fs fs' → grows_towards names' fs fs'.
Proof.
  intros Hnames [Hsub Hnew]. split; [done|].
  intros q Hq Hq'. destruct (Hnew q Hq Hq') as (Hd & p & Hp & Hsuf).
  split; [done|]. by eapply Hnames.
Qed.

Lemma grows_towards_insert name fs :
  fs !! name = None → grows_towards [name] fs (<[name := Dir]> fs).
Proof.
  intros Hfree. split; [by apply insert_subseteq|].
  intros q Hq Hq'. destruct (decide (name = q)) as [->|Hne].
  - rewrite lookup_insert_eq. split; [done|].
    exists q. split; [apply list_elem_of_here|done].
  - rewrite lookup_insert_ne in Hq' by done.
    destruct Hq' as [n Hn]. congruence.
Qed.

Lemma mkdir_inv name fs r fs' :
  mkdir name fs = (r, fs') →
  (r = Ok () ∧ fs !! name = None ∧ fs' = <[name := Dir]> fs)
  ∨ (∃ errno, r = Raise (MkdirError errno name) ∧ fs' = fs).
Proof.
  unfold mkdir. intros Hrun.
  assert (Hleaf :
    (if bool_decide (is_Some (fs !! name))
     then (Raise (MkdirError EEXIST name), fs)
     else (Ok (), <[name := Dir]> fs)) = (r, fs') →
    (r = Ok () ∧ fs !! name = None ∧ fs' = <[name := Dir]> fs)
    ∨ (∃ errno, r = Raise (MkdirError errno name) ∧ fs' = fs)).
  { case_bool_decide as Hex; intros [= <- <-].
    - right. by eexists.
    - left. split; [done|]. split; [|done].
      by apply eq_None_not_Some. }
  destruct name as [|tail head].
  - injection Hrun as <- <-. right. by eexists.
  - destruct head as [|h head]; [by apply Hleaf|].
    destruct (fs !! (h :: head)) as [[]|].
    + injection Hrun as <- <-. right. by eexists.
    + by apply Hleaf.
    + injection Hrun as <- <-. right. by eexists.
Qed.

(** The outcome of [mkdir]: a new directory at [name], or an error that
    names it and no change. *)
Lemma mkdir_grows name fs r fs' :
  mkdir name fs = (r, fs') →
  grows_towards [name] fs fs'
  ∧ ((r = Ok () ∧ fs' !! name = Some Dir)
     ∨ ∃ errno, r = Raise (MkdirError errno name)).
Proof.
  intros Hrun.
  destruct (mkdir_inv _ _ _ _ Hrun) as [(-> & Hfree & ->)|(errno & -> & ->)].
  - split; [by apply grows_towards_insert|].
    left. by rewrite lookup_insert_eq.
  - split; [apply grows_towards_refl|]. right. by eexists.
Qed.

Lemma grows_towards_parent tail head fs fs' :
  grows_towards [head] fs fs' → grows_towards [tail :: head] fs fs'.
Proof.
  apply grows_towards_mono. intros p q ->%list_elem_of_singleton Hsuf.
  exists (tail :: head). split; [apply list_elem_of_here|].
  by apply suffix_cons_r.
Qed.

(** The outcome of [makedirs]: the directory is there at the end, or the
    error is the one [mkdir] raised on [name] or on an ancestor. *)
Lemma makedirs_grows name fs r fs' :
  makedirs name fs = (r, fs') →
  grows_towards [name] fs fs'
  ∧ ((r = Ok () ∧ fs' !! name = Some Dir)
     ∨ ∃ errno q, r = Raise (MkdirError errno q) ∧ q `suffix_of` name).
Proof.
  revert fs r fs'. induction name as [|tail head IH]; intros fs r fs' Hrun.
  - change (makedirs []) with (mkdir []) in Hrun.
    apply mkdir_grows in Hrun as [Hg [Hok|[errno ->]]].
    + split; [done|by left].
    + split; [done|]. right. by exists errno, [].
  - cbn [makedirs] in Hrun.
    unfold mbind, fsio_bind, path_exists, mret, fsio_ret in Hrun.
    assert (Hleaf : ∀ fs1, grows_towards [tail :: head] fs fs1 →
              mkdir (tail :: head) fs1 = (r, fs') →
              grows_towards [tail :: head] fs fs'
              ∧ ((r = Ok () ∧ fs' !! (tail :: head) = Some Dir)
                 ∨ ∃ errno q, r = Raise (MkdirError errno q)
                              ∧ q `suffix_of` tail :: head)).
    { intros fs1 Hg1 Hmk.
      apply mkdir_grows in Hmk as [Hg [Hok|[errno ->]]].
      - split; [by eapply grows_towards_trans|by left].
      - split; [by eapply grows_towards_trans|].
        right. by exists errno, (tail :: head). }
    destruct (bool_decide (head ≠ []) && negb (bool_decide (is_Some (fs !! head)))).
    + destruct (makedirs head fs) as [r1 fs1] eqn:Hhead.
      apply IH in Hhead as [Hg1%(grows_towards_parent tail) Hr1].
      destruct r1 as [[]|e].
      * by apply (Hleaf fs1).
      * destruct Hr1 as [[? _]|(errno & q & [= ->] & Hsuf)]; [done|].
        destruct errno.
        -- by apply (Hleaf fs1).
        -- injection Hrun as <- <-. split; [done|].
           right. exists ENOENT, q. split; [done|by apply suffix_cons_r].
        -- injection Hrun as <- <-. split; [done|].
           right. exists ENOTDIR, q. split; [done|by apply suffix_cons_r].
    + apply (Hleaf fs); [apply grows_towards_refl|done].
Qed.

(** ** The loop of [create_missing_folders] *)

(** One turn of the loop is a call on a one-element list. *)
Lemma create_missing_folders_cons folder folders fs :
  create_missing_folders (folder :: folders) fs
  = match create_missing_folders [folder] fs with
    | (Ok _, fs) => create_missing_folders folders fs
    | (Raise e, fs) => (Raise e, fs)
    end.
Proof.
  cbn [create_missing_folders].
  unfold mbind, fsio_bind, path_exists, path_isdir, raise, mret, fsio_ret.
  destruct (negb (bool_decide (is_Some (fs !! folder)))).
  - by destruct (makedirs folder fs) as [[[]|e] fs1].
  - by destruct (negb (bool_decide (fs !! folder = Some Dir))).
Qed.

Lemma create_missing_folders_app pre suf fs :
  create_missing_folders (pre ++ suf) fs
  = match create_missing_folders pre fs with
    | (Ok _, fs) => create_missing_folders suf fs
    | (Raise e, fs) => (Raise e, fs)
    end.
Proof.
  revert fs. induction pre as [|p pre IH]; intros fs; [done|].
  rewrite <- app_comm_cons.
  rewrite (create_missing_folders_cons p (pre ++ suf)).
  rewrite (create_missing_folders_cons p pre).
  destruct (create_missing_folders [p] fs) as [[[]|e] fs1]; [|done].
  apply IH.
Qed.

(** The three ways one turn can end: the directory is there; the path is
    something else and the loop raises, changing nothing; or the path does
    not exist and making it fails. *)
Lemma create_missing_folders_single folder fs r fs' :
  create_missing_folders [folder] fs = (r, fs') →
  grows_towards [folder] fs fs'
  ∧ ((r = Ok () ∧ fs' !! folder = Some Dir)
     ∨ (fs !! folder = Some File
        ∧ r = Raise (OSError (no_directory_message folder)) ∧ fs' = fs)
     ∨ (fs !! folder = None
        ∧ ∃ errno q, r = Raise (MkdirError errno q) ∧ q `suffix_of` folder)).
Proof.
  cbn [create_missing_folders].
  unfold mbind, fsio_bind, path_exists, path_isdir, raise, mret, fsio_ret.
  case_bool_decide as Hex; simpl.
  - case_bool_decide as Hdir; simpl; intros [= <- <-].
    + split; [apply grows_towards_refl|]. by left.
    + split; [apply grows_towards_refl|]. right. left.
      destruct Hex as [[] Hn]; done.
  - apply eq_None_not_Some in Hex.
    destruct (makedirs folder fs) as [r1 fs1] eqn:Hmk.
    apply makedirs_grows in Hmk as [Hg Hr1].
    destruct r1 as [[]|e]; intros [= <- <-].
    + split; [done|]. left. by destruct Hr1 as [[_ ?]|(? & ? & ? & _)].
    + split; [done|]. right. right. split; [done|].
      by destruct Hr1 as [[? _]|?].
Qed.

Lemma grows_towards_weaken names names' fs fs' :
  names ⊆ names' → grows_towards names fs fs' → grows_towards names' fs fs'.
Proof.
  intros Hsub. apply grows_towards_mono. intros p q Hp Hq.
  exists p. split; [by apply Hsub|done].
Qed.

(** A call that returns leaves every listed path a directory. *)
Lemma create_missing_folders_ok folders fs fs' :
  create_missing_folders folders fs = (Ok (), fs') →
  grows_towards folders fs fs' ∧ ∀ p, p ∈ folders → fs' !! p = Some Dir.
Proof.
  revert fs. induction folders as [|folder folders IH]; intros fs.
  - intros [= <-]. split; [apply grows_towards_refl|].
    intros p Hp. by apply elem_of_nil in Hp.
  - rewrite create_missing_folders_cons.
    destruct (create_missing_folders [folder] fs) as [[[]|e] fs1] eqn:Hone;
      [|done].
    intros Hrest. apply IH in Hrest as [Hg2 Hdirs].
    apply create_missing_folders_single in Hone as [Hg1 Hone].
    split.
    + eapply grows_towards_trans.
      * eapply grows_towards_weaken; [|exact Hg1].
        intros x ->%list_elem_of_singleton. apply list_elem_of_here.
      * eapply grows_towards_weaken; [|exact Hg2].
        intros x Hx. by apply list_elem_of_further.
    + intros p [->|Hp]%elem_of_cons; [|by apply Hdirs].
      destruct Hone as [[_ Hd]|[(_ & ? & _)|(_ & ? & ? & ? & _)]]; [|done..].
      destruct Hg2 as [Hsub _]. apply (lookup_weaken _ _ _ _ Hd Hsub).
Qed.

(** A call that raises stopped at one listed path, after the paths before
    it went through. *)
Lemma create_missing_folders_raise folders fs e fs' :
  create_missing_folders folders fs = (Raise e, fs') →
  ∃ pre p suf fs1,
    folders = pre ++ p :: suf
    ∧ create_missing_folders pre fs = (Ok (), fs1)
    ∧ create_missing_folders [p] fs1 = (Raise e, fs').
Proof.
  revert fs. induction folders as [|folder folders IH]; intros fs; [done|].
  rewrite create_missing_folders_cons.
  destruct (create_missing_folders [folder] fs) as [[[]|e1] fs1] eqn:Hone.
  - intros (pre & p & suf & fs2 & -> & Hpre & Hp)%IH.
    exists (folder :: pre), p, suf, fs2. split; [done|]. split; [|done].
    rewrite create_missing_folders_cons, Hone. done.
  - intros [= <- <-]. by exists [], folder, folders, fs.
Qed.

(** Where every listed path is a directory already, nothing happens. *)
Lemma create_missing_folders_noop folders fs :
  (∀ p, p ∈ folders → fs !! p = Some Dir) →
  create_missing_folders folders fs = (Ok (), fs).
Proof.
  induction folders as [|folder folders IH]; intros Hdirs; [done|].
  rewrite create_missing_folders_cons.
  assert (Hone : create_missing_folders [folder] fs = (Ok (), fs)).
  { cbn [create_missing_folders].
    unfold mbind, fsio_bind, path_exists, path_isdir, raise, mret, fsio_ret.
    assert (Hd : fs !! folder = Some Dir)
      by (apply Hdirs, list_elem_of_here).
    rewrite (bool_decide_eq_true_2 (is_Some (fs !! folder))) by (by eexists).
    cbn [negb]. cbv beta.
    by rewrite (bool_decide_eq_true_2 (fs !! folder = Some Dir)). }
  rewrite Hone. apply IH. intros p Hp.
  by apply Hdirs, list_elem_of_further.
Qed.

(** ** Properties of [create_missing_folders] *)

(** C3, as the code has it: when a listed path [p] exists and is not a
    directory, the call raises an OS-level error, and everything that
    existed before is still there unchanged, [p] included.  The error names
    [p] when the loop gets to [p], that is when the paths listed before it
    go through without an error: it is then the [OSError] of the [raise],
    with [p] in its message.  When a path listed before [p] fails, the call
    ends there, with the error of that path. *)
Theorem create_missing_folders_refuses_file
    (pre : list path) (p : path) (suf : list path) (fs : gmap path node) :
  fs !! p = Some File →
  ∃ e fs',
    create_missing_folders (pre ++ p :: suf) fs = (Raise e, fs')
    ∧ is_os_error e = true
    ∧ (∀ q n, fs !! q = Some n → fs' !! q = Some n)
    ∧ match create_missing_folders pre fs with
      | (Ok _, fs1) => e = OSError (no_directory_message p) ∧ fs' = fs1
      | (Raise e1, fs1) => e = e1 ∧ fs' = fs1
      end.
Proof.
  intros Hfile. rewrite create_missing_folders_app.
  destruct (create_missing_folders pre fs) as [[[]|e1] fs1] eqn:Hpre.
  - pose proof Hpre as [[Hsub _] _]%create_missing_folders_ok.
    pose proof (lookup_weaken _ _ _ _ Hfile Hsub) as Hfile1.
    rewrite create_missing_folders_cons.
    destruct (create_missing_folders [p] fs1) as [r fs2] eqn:Hp.
    apply create_missing_folders_single in Hp
      as [[Hsub2 _] [[-> Hd]|[(_ & -> & ->)|(Hn & _)]]].
    + pose proof (lookup_weaken _ _ _ _ Hfile1 Hsub2). congruence.
    + exists (OSError (no_directory_message p)), fs1.
      split; [done|]. split; [done|]. split; [|done].
      intros q n Hq. by apply (lookup_weaken _ _ _ _ Hq).
    + congruence.
  - exists e1, fs1. split; [done|].
    pose proof Hpre
      as (pre' & p' & suf' & fs0 & -> & Hpre' & Hp')%create_missing_folders_raise.
    pose proof Hpre' as [[Hsub0 _] _]%create_missing_folders_ok.
    pose proof Hp' as [[Hsub1 _] Hcase]%create_missing_folders_single.
    split; [|split; [|done]].
    + destruct Hcase
        as [[? _]|[(_ & [= ->] & _)|(_ & errno & q & [= ->] & _)]]; done.
    + intros q n Hq. apply (lookup_weaken _ _ _ _ Hq). by etrans.
Qed.

(** C5: a second call with the same list, on the file system the first call
    left, changes nothing and raises nothing. *)
Theorem create_missing_folders_idempotent
    (folders : list path) (fs fs' : gmap path node) :
  create_missing_folders folders fs = (Ok (), fs') →
  create_missing_folders folders fs' = (Ok (), fs').
Proof.
  intros [_ Hdirs]%create_missing_folders_ok.
  by apply create_missing_folders_noop.
Qed.

(** C10: the paths are dealt with in list order and the first failure ends
    the call.  When the call raises, the list splits at the path [p] where
    it stopped: the paths before [p] went through without an error and are
    directories in the state that is left (nothing is rolled back); the
    error and the state are those of the turn for [p]; the paths after [p]
    play no part, whatever they are; and a path that changed is an
    ancestor of, or is, a path up to [p]. *)
Theorem create_missing_folders_stops_at_first_failure
    (folders : list path) (fs fs' : gmap path node) (e : exn) :
  create_missing_folders folders fs = (Raise e, fs') →
  ∃ pre p suf fs1,
    folders = pre ++ p :: suf
    ∧ create_missing_folders pre fs = (Ok (), fs1)
    ∧ create_missing_folders [p] fs1 = (Raise e, fs')
    ∧ (∀ q, q ∈ pre → fs' !! q = Some Dir)
    ∧ (∀ suf', create_missing_folders (pre ++ p :: suf') fs = (Raise e, fs'))
    ∧ (∀ q n, fs !! q = Some n → fs' !! q = Some n)
    ∧ (∀ q, fs' !! q ≠ fs !! q → ∃ t, t ∈ pre ++ [p] ∧ q `suffix_of` t).
Proof.
  intros (pre & p & suf & fs1 & -> & Hpre & Hp)%create_missing_folders_raise.
  exists pre, p, suf, fs1.
  pose proof Hpre as [Hg1 Hdirs]%create_missing_folders_ok.
  pose proof Hp as [Hg2 _]%create_missing_folders_single.
  assert (Hg : grows_towards (pre ++ [p]) fs fs').
  { eapply grows_towards_trans.
    - eapply grows_towards_weaken; [|exact Hg1].
      intros x Hx. apply elem_of_app. by left.
    - eapply grows_towards_weaken; [|exact Hg2].
      intros x Hx. apply elem_of_app. by right. }
  repeat split; try done.
  - intros q Hq. destruct Hg2 as [Hsub _].
    apply (lookup_weaken _ _ _ _ (Hdirs q Hq) Hsub).
  - intros suf'. rewrite create_missing_folders_app, Hpre.
    by rewrite create_missing_folders_cons, Hp.
  - intros q n Hq. destruct Hg as [Hsub _].
    apply (lookup_weaken _ _ _ _ Hq Hsub).
  - intros q Hne. destruct Hg as [Hsub Hnew].
    destruct (fs !! q) as [n|] eqn:Hq.
    + pose proof (lookup_weaken _ _ _ _ Hq Hsub). congruence.
    + destruct (fs' !! q) as [n|] eqn:Hq'; [|done].
      destruct (Hnew q Hq) as [_ Ht]; [by rewrite Hq'|done].
Qed.

(** The examples of the documentation. *)
Example create_missing_folders_nested :
  create_missing_folders [["c"; "b"; "a"]] ∅ = (Ok (), fs_abc).
Proof. vm_compute. reflexivity. Qed.

Example create_missing_folders_regular_file :
  create_missing_folders [["existing_file.txt"]] fs_one_file
  = (Raise (OSError "Path existing_file.txt exists, but is no directory!"),
     fs_one_file).
Proof. vm_compute. reflexivity. Qed.

Lemma create_missing_folders_refuses_file_witness :
  fs_one_file !! ["existing_file.txt"] = Some File
  ∧ ∃ fs',
      create_missing_folders
        [["b"; "a"]; ["existing_file.txt"]; ["z"]] fs_one_file
      = (Raise (OSError "Path existing_file.txt exists, but is no directory!"),
         fs')
      ∧ fs' !! ["existing_file.txt"] = Some File.
Proof.
  assert (Hfile : fs_one_file !! ["existing_file.txt"] = Some File)
    by (vm_compute; reflexivity).
  split; [exact Hfile|].
  destruct (create_missing_folders_refuses_file
              [["b"; "a"]] ["existing_file.txt"] [["z"]] fs_one_file Hfile)
    as (e & fs' & Hrun & _ & Hkeep & Hcase).
  assert (Hpre : create_missing_folders [["b"; "a"]] fs_one_file
                 = (Ok (), <[ ["b"; "a"] := Dir ]>
                             (<[ ["a"] := Dir ]> fs_one_file)))
    by (vm_compute; reflexivity).
  rewrite Hpre in Hcase. destruct Hcase as [He _].
  exists fs'. split.
  - rewrite He in Hrun. exact Hrun.
  - apply Hkeep. exact Hfile.
Defined.

(** C3 as documented fails when a path listed earlier lies under the file:
    the call raises, but the error is the one [mkdir] raised for
    ["existing_file.txt/b"], a path that does not exist, and the listed path
    that exists and is not a directory is never named. *)
Lemma create_missing_folders_names_other_path :
  fs_one_file !! ["existing_file.txt"] = Some File
  ∧ fs_one_file !! ["b"; "existing_file.txt"] = None
  ∧ create_missing_folders
      [["c"; "b"; "existing_file.txt"]; ["existing_file.txt"]] fs_one_file
    = (Raise (MkdirError ENOTDIR ["b"; "existing_file.txt"]), fs_one_file)
  ∧ ¬ (∀ (folders : list path) (fs : gmap path node),
         Exists (λ p, fs !! p = Some File) folders →
         ∃ p fs',
           p ∈ folders ∧ fs !! p = Some File
           ∧ create_missing_folders folders fs
             = (Raise (OSError (no_directory_message p)), fs')).
Proof.
  assert (Hrun : create_missing_folders
                   [["c"; "b"; "existing_file.txt"]; ["existing_file.txt"]]
                   fs_one_file
                 = (Raise (MkdirError ENOTDIR ["b"; "existing_file.txt"]),
                    fs_one_file)) by (vm_compute; reflexivity).
  split; [vm_compute; reflexivity|]. split; [vm_compute; reflexivity|].
  split; [exact Hrun|].
  intros H.
  destruct (H [["c"; "b"; "existing_file.txt"]; ["existing_file.txt"]]
              fs_one_file) as (p & fs' & _ & _ & Hnamed).
  - apply Exists_cons_tl, Exists_cons_hd. vm_compute. reflexivity.
  - rewrite Hrun in Hnamed. discriminate Hnamed.
Qed.

Lemma create_missing_folders_idempotent_witness :
  create_missing_folders [["c"; "b"; "a"]] ∅ = (Ok (), fs_abc)
  ∧ create_missing_folders [["c"; "b"; "a"]] fs_abc = (Ok (), fs_abc).
Proof.
  assert (Hfirst : create_missing_folders [["c"; "b"; "a"]] ∅
                   = (Ok (), fs_abc)) by (vm_compute; reflexivity).
  split; [exact Hfirst|].
  exact (create_missing_folders_idempotent _ _ _ Hfirst).
Defined.

Lemma create_missing_folders_stops_at_first_failure_witness :
  create_missing_folders
    [["b"; "a"]; ["existing_file.txt"]; ["z"]] fs_one_file
  = (Raise (OSError "Path existing_file.txt exists, but is no directory!"),
     <[ ["b"; "a"] := Dir ]> (<[ ["a"] := Dir ]> fs_one_file))
  ∧ ∃ pre p suf,
      [["b"; "a"]; ["existing_file.txt"]; ["z"]] = pre ++ p :: suf
      ∧ ∀ suf',
          create_missing_folders (pre ++ p :: suf') fs_one_file
          = (Raise (OSError
                      "Path existing_file.txt exists, but is no directory!"),
             <[ ["b"; "a"] := Dir ]> (<[ ["a"] := Dir ]> fs_one_file)).
Proof.
  assert (Hrun : create_missing_folders
                   [["b"; "a"]; ["existing_file.txt"]; ["z"]] fs_one_file
                 = (Raise (OSError
                      "Path existing_file.txt exists, but is no directory!"),
                    <[ ["b"; "a"] := Dir ]> (<[ ["a"] := Dir ]> fs_one_file)))
    by (vm_compute; reflexivity).
  split; [exact Hrun|].
  destruct (create_missing_folders_stops_at_first_failure _ _ _ _ Hrun)
    as (pre & p & suf & fs1 & Hsplit & _ & _ & _ & Hany & _).
  exists pre, p, suf. split; [exact Hsplit|exact Hany].
Defined.

(** ** Properties of [call_command] *)

Lemma contains_prefix (sub post : string) : contains sub (sub +:+ post).
Proof. by exists "", post. Qed.

Lemma contains_app_r (sub a s : string) :
  contains sub s → contains sub (a +:+ s).
Proof.
  intros (pre & post & ->). exists (a +:+ pre), post.
  by rewrite string_app_assoc.
Qed.

Lemma contains_suffix (sub : string) : contains sub sub.
Proof. exists "", "". by rewrite string_app_nil_l, string_app_nil_r. Qed.

Lemma plain_byte_inv (c : ascii) :
  plain_byte c = true →
  (32 <= nat_of_ascii c < 127)%nat ∧ c ≠ quote1 ∧ c ≠ backslash.
Proof.
  unfold plain_byte. rewrite !andb_true_iff, !negb_true_iff.
  intros [[[[Hlo%Nat.leb_le Hhi%Nat.ltb_lt] Hq1] _] Hb].
  apply bool_decide_eq_false in Hq1, Hb. done.
Qed.

Lemma escape_byte_plain (c : ascii) :
  plain_byte c = true → escape_byte quote1 c = String c "".
Proof.
  intros (Hn & Hq & Hb)%plain_byte_inv. unfold escape_byte.
  rewrite (bool_decide_eq_false_2 _ Hq), (bool_decide_eq_false_2 _ Hb).
  cbn [orb].
  destruct (Nat.eqb_spec (nat_of_ascii c) 9); [lia|].
  destruct (Nat.eqb_spec (nat_of_ascii c) 10); [lia|].
  destruct (Nat.eqb_spec (nat_of_ascii c) 13); [lia|].
  destruct (Nat.ltb_spec (nat_of_ascii c) 32); [lia|].
  destruct (Nat.leb_spec 127 (nat_of_ascii c)); [lia|done].
Qed.

Lemma escape_bytes_plain (s : string) :
  plain_text s = true → escape_bytes quote1 s = s ∧ occurs quote1 s = false.
Proof.
  induction s as [|c s IH]; [done|]. cbn [plain_text escape_bytes occurs].
  intros [Hc Hs]%andb_true_iff. destruct (IH Hs) as [-> ->].
  rewrite (escape_byte_plain c Hc).
  apply plain_byte_inv in Hc as (_ & Hq & _).
  by rewrite (bool_decide_eq_false_2 _ Hq).
Qed.

(** Plain text is shown as it is, between [b'] and [']. *)
Lemma bytes_repr_plain (s : string) :
  plain_text s = true →
  bytes_repr s = "b" +:+ String quote1 (s +:+ String quote1 "").
Proof.
  intros [Hesc Hocc]%escape_bytes_plain. unfold bytes_repr.
  rewrite Hocc. cbn [andb]. cbv zeta iota. by rewrite Hesc.
Qed.

(** Exit codes and the message of the error: provided the log file, when
    one is given, can be opened, the call
    returns the exit code, 0, when the command exits with 0, and raises a
    RuntimeError exactly when the exit code is not 0; the message of the
    error contains the command, the exit code in decimal, and the path of
    the log file when there is one, or else what was captured from the
    standard output and from the standard error, each as [str.format]
    renders bytes. *)
Theorem call_command_exit_code (sys : system) (cmd : string)
    (log_file : option string) :
  (∀ path, log_file = Some path → can_open sys path = true) →
  let proc := shell sys cmd log_file in
  (returncode proc = 0 → call_command sys cmd log_file = Ok 0)
  ∧ (returncode proc ≠ 0 →
     ∃ msg,
       call_command sys cmd log_file = Raise (RuntimeError msg)
       ∧ contains cmd msg
       ∧ contains (str_int (returncode proc)) msg
       ∧ match log_file with
         | Some path => contains path msg
         | None => contains (bytes_repr (stdout_data proc)) msg
                   ∧ contains (bytes_repr (stderr_data proc)) msg
         end)
  ∧ ((∃ e, call_command sys cmd log_file = Raise e) ↔ returncode proc ≠ 0).
Proof.
  intros Hopen proc. unfold call_command.
  destruct log_file as [path|].
  - rewrite (Hopen path eq_refl). fold proc.
    destruct (Z.eqb_spec (returncode proc) 0) as [Hz|Hnz]; simpl.
    + split; [by rewrite Hz|]. split; [done|]. split; [by intros [e ?]|done].
    + split; [done|]. split; [|split; [done|by eauto]].
      intros _. eexists. split; [done|]. unfold log_message.
      split; [|split].
      * apply contains_app_r, contains_prefix.
      * do 3 apply contains_app_r. apply contains_prefix.
      * do 5 apply contains_app_r. apply contains_prefix.
  - fold proc.
    destruct (Z.eqb_spec (returncode proc) 0) as [Hz|Hnz]; simpl.
    + split; [by rewrite Hz|]. split; [done|]. split; [by intros [e ?]|done].
    + split; [done|]. split; [|split; [done|by eauto]].
      intros _. eexists. split; [done|]. unfold pipe_message.
      split; [|split; [|split]].
      * apply contains_app_r, contains_prefix.
      * do 3 apply contains_app_r. apply contains_prefix.
      * do 10 apply contains_app_r. apply contains_prefix.
      * do 14 apply contains_app_r. apply contains_suffix.
Qed.

Lemma call_command_exit_code_witness :
  (∀ path, None = Some path → can_open example_system path = true)
  ∧ call_command example_system "true" None = Ok 0
  ∧ ∃ msg, call_command example_system "exit 7" None
           = Raise (RuntimeError msg)
           ∧ contains "7" msg.
Proof.
  assert (Hopen : ∀ path : string,
            None = Some path → can_open example_system path = true)
    by (intros path Hpath; discriminate Hpath).
  split; [exact Hopen|]. split.
  - apply (call_command_exit_code example_system "true" None Hopen).
    reflexivity.
  - destruct (call_command_exit_code example_system "exit 7" None Hopen)
      as (_ & Hraise & _).
    destruct Hraise as (msg & Hmsg & _ & Hcode & _).
    + vm_compute. discriminate.
    + exists msg. split; [exact Hmsg|exact Hcode].
Defined.

(** With a log file the message names the file instead. *)
Example call_command_log_file :
  call_command example_system "exit 7" (Some "run.log")
  = Raise (RuntimeError
      "Calling command exit 7 returned exit code 7. Output in file run.log.").
Proof. vm_compute. reflexivity. Qed.

(** ** Properties of [general_init] *)

Lemma logging_info_level msg rt :
  root_level (logging_info msg rt) = root_level rt.
Proof.
  unfold logging_info, basicConfig.
  destruct (root_handlers rt) as [|h hs] eqn:Hh; simpl;
    by destruct (_ && _).
Qed.

Lemma banner_level msgs rt :
  root_level (foldl (λ rt msg, logging_info msg rt) rt msgs) = root_level rt.
Proof.
  revert rt. induction msgs as [|msg msgs IH]; intros rt; [done|].
  simpl. by rewrite IH, logging_info_level.
Qed.

Lemma set_printoptions_level f rt :
  root_level (set_printoptions f rt) = root_level rt.
Proof. reflexivity. Qed.

Lemma general_init_state debug rt :
  (general_init debug rt).2
  = set_printoptions (format_f 2)
      (foldl (λ rt msg, logging_info msg rt)
         (basicConfig "%(asctime)s  %(message)s" (Some "%H:%m")
            (Some (if debug then DEBUG else INFO)) rt)
         banner).
Proof. reflexivity. Qed.

(** The level after the call: the call never raises; when the root logger has
    no handler yet, as in a process that has not configured logging, the
    level becomes DEBUG when the flag is true and INFO when it is false;
    when a handler is already installed, [basicConfig] does nothing and the
    level stays what it was. *)
Theorem general_init_level (debug : bool) (rt : runtime) :
  (general_init debug rt).1 = Ok ()
  ∧ (root_handlers rt = [] →
     root_level (general_init debug rt).2 = if debug then DEBUG else INFO)
  ∧ (root_handlers rt ≠ [] →
     root_level (general_init debug rt).2 = root_level rt).
Proof.
  split; [reflexivity|].
  rewrite general_init_state, set_printoptions_level, banner_level.
  unfold basicConfig.
  split; intros Hh.
  - rewrite Hh. reflexivity.
  - destruct (root_handlers rt); [done|reflexivity].
Qed.

Lemma general_init_level_witness :
  root_handlers fresh_runtime = []
  ∧ root_level (general_init true fresh_runtime).2 = DEBUG
  ∧ root_level (general_init false fresh_runtime).2 = INFO.
Proof.
  assert (Hfresh : root_handlers fresh_runtime = []) by reflexivity.
  split; [exact Hfresh|]. split.
  - exact (proj1 (proj2 (general_init_level true fresh_runtime)) Hfresh).
  - exact (proj1 (proj2 (general_init_level false fresh_runtime)) Hfresh).
Defined.

(** C8 as documented fails on a second call: after [general_init(False)]
    the root logger has its handler, and [general_init(True)] leaves the
    level at INFO. *)
Lemma general_init_second_call_keeps_level :
  root_level
    (general_init true (general_init false fresh_runtime).2).2 = INFO
  ∧ ¬ (∀ debug rt,
         root_level (general_init debug rt).2
         = if debug then DEBUG else INFO).
Proof.
  assert (Hlevel : root_level
            (general_init true (general_init false fresh_runtime).2).2 = INFO)
    by (vm_compute; reflexivity).
  split; [exact Hlevel|].
  intros H.
  specialize (H true (general_init false fresh_runtime).2).
  rewrite Hlevel in H. discriminate H.
Qed.

(** The banner is emitted at either level, once each call. *)
Example general_init_banner (debug : bool) :
  records (general_init debug fresh_runtime).2 = banner.
Proof. destruct debug; vm_compute; reflexivity. Qed.

(** ** The contract of [call_command] *)






(** ** The threshold [general_init] leaves *)

(** C8, as the code has it: for either value of the flag the call completes
    without raising; when the root logger has no handler yet, as in a
    process that has not configured logging, the threshold becomes DEBUG
    when the flag is true and INFO when it is false; when a handler is
    already installed, for instance by an earlier call, the threshold is
    left as it was. *)
Theorem general_init_threshold (debug : bool) (rt : runtime) :
  (general_init debug rt).1 = Ok ()
  ∧ root_level (general_init debug rt).2
    = match root_handlers rt with
      | [] => if debug then DEBUG else INFO
      | _ :: _ => root_level rt
      end.
Proof.
  split; [reflexivity|].
  rewrite general_init_state, set_printoptions_level, banner_level.
  unfold basicConfig. by destruct (root_handlers rt).
Qed.

(** ** More on [call_command] *)

(** A call that returns has run a command that exited with 0, and 0 is
    what it returns: the value carries no other information. *)
Theorem call_command_returns_zero (sys : system) (cmd : string)
    (log_file : option string) (code : Z) :
  call_command sys cmd log_file = Ok code →
  code = 0 ∧ returncode (shell sys cmd log_file) = 0.
Proof.
  unfold call_command. destruct log_file as [path|].
  - destruct (can_open sys path); [|done].
    destruct (Z.eqb_spec (returncode (shell sys cmd (Some path))) 0)
      as [Hz|Hnz]; simpl; [|done].
    intros [= <-]. done.
  - destruct (Z.eqb_spec (returncode (shell sys cmd None)) 0)
      as [Hz|Hnz]; simpl; [|done].
    intros [= <-]. done.
Qed.

Lemma call_command_returns_zero_witness :
  call_command example_system "true" (Some "run.log") = Ok 0
  ∧ returncode (shell example_system "true" (Some "run.log")) = 0.
Proof.
  assert (Hrun : call_command example_system "true" (Some "run.log") = Ok 0)
    by reflexivity.
  split; [exact Hrun|].
  exact (proj2 (call_command_returns_zero _ _ _ _ Hrun)).
Defined.

(** When the log file cannot be opened the call fails with the error of
    [io.open], whatever the command would have done: no RuntimeError, no
    exit code. *)
Theorem call_command_log_not_writable (sys : system) (cmd path : string) :
  can_open sys path = false →
  call_command sys cmd (Some path) = Raise (IOError path).
Proof. intros Hopen. unfold call_command. by rewrite Hopen. Qed.

Lemma call_command_log_not_writable_witness :
  can_open example_system "" = false
  ∧ call_command example_system "exit 7" (Some "") = Raise (IOError "").
Proof.
  assert (Hopen : can_open example_system "" = false) by reflexivity.
  split; [exact Hopen|].
  exact (call_command_log_not_writable example_system "exit 7" "" Hopen).
Defined.

Lemma contains_in_literal (text rest : string) :
  contains text
    (("b" +:+ String quote1 (text +:+ String quote1 "")) +:+ rest).
Proof.
  exists ("b" +:+ String quote1 ""), (String quote1 "" +:+ rest).
  rewrite !string_app_cons, !string_app_nil_l, !string_app_cons.
  by rewrite string_app_nil_l, string_app_assoc.
Qed.

(** Without a log file, output that is plain printable text (no quote, no
    backslash, no control character such as a newline) appears in the
    message of the error exactly as the command wrote it. *)
Theorem call_command_plain_output (sys : system) (cmd : string) :
  returncode (shell sys cmd None) ≠ 0 →
  plain_text (stdout_data (shell sys cmd None)) = true →
  plain_text (stderr_data (shell sys cmd None)) = true →
  ∃ msg,
    call_command sys cmd None = Raise (RuntimeError msg)
    ∧ contains (stdout_data (shell sys cmd None)) msg
    ∧ contains (stderr_data (shell sys cmd None)) msg.
Proof.
  intros Hnz Hout Herr. unfold call_command.
  destruct (Z.eqb_spec (returncode (shell sys cmd None)) 0); [done|].
  simpl. eexists. split; [done|]. unfold pipe_message.
  rewrite (bytes_repr_plain _ Hout), (bytes_repr_plain _ Herr).
  split.
  - do 10 apply contains_app_r. apply contains_in_literal.
  - do 14 apply contains_app_r.
    rewrite <- (string_app_nil_r (_ +:+ String quote1 _)).
    apply contains_in_literal.
Qed.

Lemma call_command_plain_output_witness :
  returncode (shell plain_system "select" None) ≠ 0
  ∧ plain_text (stdout_data (shell plain_system "select" None)) = true
  ∧ plain_text (stderr_data (shell plain_system "select" None)) = true
  ∧ ∃ msg, call_command plain_system "select" None
           = Raise (RuntimeError msg)
           ∧ contains "partial result" msg
           ∧ contains "no such table" msg.
Proof.
  assert (Hnz : returncode (shell plain_system "select" None) ≠ 0)
    by (vm_compute; discriminate).
  assert (Hout : plain_text (stdout_data (shell plain_system "select" None))
                 = true) by (vm_compute; reflexivity).
  assert (Herr : plain_text (stderr_data (shell plain_system "select" None))
                 = true) by (vm_compute; reflexivity).
  split; [exact Hnz|]. split; [exact Hout|]. split; [exact Herr|].
  exact (call_command_plain_output plain_system "select" Hnz Hout Herr).
Defined.

(** ** More on [general_init] *)

(** With a handler installed, [logging.info] hands the message over when
    INFO is enabled and changes nothing else. *)
Lemma logging_info_configured msg rt :
  root_handlers rt ≠ [] →
  root_handlers (logging_info msg rt) = root_handlers rt
  ∧ manager_disable (logging_info msg rt) = manager_disable rt
  ∧ float_kind (logging_info msg rt) = float_kind rt
  ∧ records (logging_info msg rt)
    = records rt
      ++ (if (manager_disable rt <? INFO) && (root_level rt <=? INFO)
          then [msg] else []).
Proof.
  intros Hh. unfold logging_info.
  destruct (root_handlers rt) as [|h hs] eqn:Hrt; [done|].
  destruct ((manager_disable rt <? INFO) && (root_level rt <=? INFO));
    simpl; rewrite ?Hrt, ?app_nil_r; done.
Qed.

Lemma logging_info_all msgs rt :
  root_handlers rt ≠ [] →
  let rt' := foldl (λ rt msg, logging_info msg rt) rt msgs in
  root_handlers rt' = root_handlers rt
  ∧ manager_disable rt' = manager_disable rt
  ∧ float_kind rt' = float_kind rt
  ∧ records rt'
    = records rt
      ++ (if (manager_disable rt <? INFO) && (root_level rt <=? INFO)
          then msgs else []).
Proof.
  revert rt. induction msgs as [|msg msgs IH]; intros rt Hh.
  - simpl. repeat split. destruct (_ && _); by rewrite app_nil_r.
  - cbn [foldl].
    destruct (logging_info_configured msg rt Hh) as (Hh1 & Hd1 & Hf1 & Hr1).
    destruct (IH (logging_info msg rt)) as (Hh2 & Hd2 & Hf2 & Hr2).
    { by rewrite Hh1. }
    cbv zeta in *. rewrite Hh2, Hd2, Hf2, Hr2, Hh1, Hd1, Hf1, Hr1.
    rewrite logging_info_level. repeat split.
    destruct (_ && _); by rewrite <- app_assoc.
Qed.

Lemma basicConfig_handlers format datefmt level rt :
  root_handlers (basicConfig format datefmt level rt)
  = match root_handlers rt with
    | [] => [ {| handler_format := format; handler_datefmt := datefmt |} ]
    | h :: hs => h :: hs
    end.
Proof. unfold basicConfig. by destruct (root_handlers rt) eqn:Hh. Qed.

Lemma basicConfig_configured format datefmt level rt :
  root_handlers (basicConfig format datefmt level rt) ≠ []
  ∧ manager_disable (basicConfig format datefmt level rt) = manager_disable rt
  ∧ records (basicConfig format datefmt level rt) = records rt
  ∧ float_kind (basicConfig format datefmt level rt) = float_kind rt.
Proof.
  unfold basicConfig.
  destruct (root_handlers rt) eqn:Hh; simpl; rewrite ?Hh; done.
Qed.

Lemma set_printoptions_handlers f rt :
  root_handlers (set_printoptions f rt) = root_handlers rt.
Proof. reflexivity. Qed.


Lemma general_init_handlers_state debug rt :
  root_handlers (general_init debug rt).2
  = match root_handlers rt with
    | [] => [ {| handler_format := "%(asctime)s  %(message)s";
                 handler_datefmt := Some "%H:%m" |} ]
    | h :: hs => h :: hs
    end.
Proof.
  rewrite general_init_state.
  rewrite set_printoptions_handlers.
  destruct (basicConfig_configured "%(asctime)s  %(message)s" (Some "%H:%m")
              (Some (if debug then DEBUG else INFO)) rt) as (Hh & _).
  destruct (logging_info_all banner _ Hh) as (-> & _).
  apply basicConfig_handlers.
Qed.

Lemma general_init_level_keep debug rt :
  root_handlers rt ≠ [] →
  root_level (general_init debug rt).2 = root_level rt.
Proof.
  intros Hh.
  rewrite general_init_state, set_printoptions_level, banner_level.
  unfold basicConfig. by destruct (root_handlers rt).
Qed.

(** The handlers after the call: a root logger without handlers gets one,
    with the format and the date format of the call; handlers that are
    already there are kept and none is added. *)
Theorem general_init_handlers (debug : bool) (rt : runtime) :
  root_handlers (general_init debug rt).2
  = match root_handlers rt with
    | [] => [ {| handler_format := "%(asctime)s  %(message)s";
                 handler_datefmt := Some "%H:%m" |} ]
    | h :: hs => h :: hs
    end.
Proof. apply general_init_handlers_state. Qed.


(** A second call configures nothing: whatever the two flags, the level
    and the handlers are those the first call left. *)
Theorem general_init_twice (debug1 debug2 : bool) (rt : runtime) :
  root_level (general_init debug2 (general_init debug1 rt).2).2
  = root_level (general_init debug1 rt).2
  ∧ root_handlers (general_init debug2 (general_init debug1 rt).2).2
    = root_handlers (general_init debug1 rt).2.
Proof.
  pose proof (general_init_handlers_state debug1 rt) as Hfirst.
  assert (Hh : root_handlers (general_init debug1 rt).2 ≠ []).
  { rewrite Hfirst. by destruct (root_handlers rt). }
  clear Hfirst. revert Hh.
  generalize ((general_init debug1 rt).2). intros rt1 Hh.
  split.
  - by apply general_init_level_keep.
  - rewrite general_init_handlers_state. by destruct (root_handlers rt1).
Qed.

(** ** More on [create_missing_folders] *)

Lemma suffix_longer (tail : string) (head : path) :
  ¬ (tail :: head) `suffix_of` head.
Proof. intros Hsuf%suffix_length. simpl in Hsuf. lia. Qed.




(** *** The tree stays a tree *)

Lemma fs_wf_insert name fs :
  fs_wf fs → fs !! name = None →
  match name with
  | [] => False
  | [_] => True
  | _ :: head => fs !! head = Some Dir
  end →
  fs_wf (<[name := Dir]> fs).
Proof.
  intros Hwf Hfree Hname p n Hp.
  assert (Hkeep : ∀ q, fs !! q = Some Dir → <[name := Dir]> fs !! q = Some Dir).
  { intros q Hq. rewrite lookup_insert_ne; [done|]. congruence. }
  destruct (decide (name = p)) as [<-|Hne].
  - destruct name as [|t [|h head]]; [done..|]. by apply Hkeep.
  - rewrite lookup_insert_ne in Hp by done.
    specialize (Hwf p n Hp). cbn beta in Hwf.
    destruct p as [|t [|h head]]; [done..|]. by apply Hkeep.
Qed.

Lemma mkdir_wf name fs r fs' :
  fs_wf fs → mkdir name fs = (r, fs') → fs_wf fs'.
Proof.
  intros Hwf. unfold mkdir.
  destruct name as [|tail head]; [by intros [= _ <-]|].
  destruct head as [|h head].
  - case_bool_decide as Hex; intros [= _ <-]; [done|].
    apply fs_wf_insert; [done|by apply eq_None_not_Some|done].
  - destruct (fs !! (h :: head)) as [[]|] eqn:Hhead;
      [by intros [= _ <-]| |by intros [= _ <-]].
    case_bool_decide as Hex; intros [= _ <-]; [done|].
    apply fs_wf_insert; [done|by apply eq_None_not_Some|done].
Qed.

Lemma makedirs_wf name fs r fs' :
  fs_wf fs → makedirs name fs = (r, fs') → fs_wf fs'.
Proof.
  revert fs r fs'. induction name as [|tail head IH]; intros fs r fs' Hwf Hrun.
  - change (makedirs []) with (mkdir []) in Hrun. by eapply mkdir_wf.
  - cbn [makedirs] in Hrun.
    unfold mbind, fsio_bind, path_exists, mret, fsio_ret in Hrun.
    destruct (bool_decide (head ≠ [])
              && negb (bool_decide (is_Some (fs !! head)))).
    + destruct (makedirs head fs) as [r1 fs1] eqn:Hhead.
      apply IH in Hhead; [|done].
      destruct r1 as [[]|e1]; [by eapply mkdir_wf|].
      destruct e1 as [| |errno q| | | |]; try by injection Hrun as _ <-.
      destruct errno; try by injection Hrun as _ <-.
      by eapply mkdir_wf.
    + by eapply mkdir_wf.
Qed.

Lemma create_missing_folders_keeps_wf folders fs r fs' :
  fs_wf fs → create_missing_folders folders fs = (r, fs') → fs_wf fs'.
Proof.
  revert fs. induction folders as [|folder folders IH]; intros fs Hwf.
  - by intros [= _ <-].
  - rewrite create_missing_folders_cons.
    destruct (create_missing_folders [folder] fs) as [r1 fs1] eqn:Hone.
    assert (Hwf1 : fs_wf fs1).
    { revert Hone. cbn [create_missing_folders].
      unfold mbind, fsio_bind, path_exists, path_isdir, raise, mret, fsio_ret.
      case_bool_decide as Hex; cbn [negb].
      - case_bool_decide as Hdir; cbn [negb]; by intros [= _ <-].
      - destruct (makedirs folder fs) as [r2 fs2] eqn:Hmk.
        apply makedirs_wf in Hmk; [|done].
        destruct r2 as [[]|e2]; by intros [= _ <-]. }
    destruct r1 as [[]|e1]; [by apply IH|by intros [= _ <-]].
Qed.

(** Well-formedness is an invariant of the call, whether it returns or
    raises: in the state it leaves, the empty path does not exist and
    everything that exists lies in a directory. *)
Theorem create_missing_folders_wf
    (folders : list path) (fs fs' : gmap path node) (r : result ()) :
  fs_wf fs →
  create_missing_folders folders fs = (r, fs') →
  fs_wf fs'.
Proof. apply create_missing_folders_keeps_wf. Qed.

Lemma create_missing_folders_wf_witness :
  fs_wf (∅ : gmap path node)
  ∧ fs_wf (create_missing_folders [["c"; "b"; "a"]; ["d"]] ∅).2.
Proof.
  assert (Hwf : fs_wf (∅ : gmap path node)) by apply map_Forall_empty.
  split; [exact Hwf|].
  apply (create_missing_folders_wf [["c"; "b"; "a"]; ["d"]] ∅ _
           (create_missing_folders [["c"; "b"; "a"]; ["d"]] ∅).1 Hwf).
  by destruct (create_missing_folders [["c"; "b"; "a"]; ["d"]] ∅).
Defined.

(** *** When the call succeeds, and what it leaves *)

Lemma fs_wf_nil fs : fs_wf fs → fs !! [] = None.
Proof.
  intros Hwf. destruct (fs !! []) as [n|] eqn:Hn; [|done].
  by destruct (Hwf [] n Hn).
Qed.

Lemma fs_wf_parent fs tail h head :
  fs_wf fs → is_Some (fs !! (tail :: h :: head)) →
  fs !! (h :: head) = Some Dir.
Proof. intros Hwf [n Hn]. apply (Hwf _ _ Hn). Qed.

Lemma suffix_cons_case (q : path) (x : string) (l : path) :
  q `suffix_of` x :: l → q = x :: l ∨ q `suffix_of` l.
Proof.
  destruct q as [|y q]; [right; apply suffix_nil|apply suffix_cons_inv].
Qed.

(** Below something that exists there are only directories. *)
Lemma fs_wf_ancestors fs p q :
  fs_wf fs → is_Some (fs !! p) → q `suffix_of` p → q ≠ [] → q ≠ p →
  fs !! q = Some Dir.
Proof.
  intros Hwf. revert q. induction p as [|tail head IH]; intros q Hp Hsuf Hq Hne.
  - by apply suffix_nil_inv in Hsuf.
  - destruct head as [|h head].
    + apply suffix_cons_case in Hsuf as [->|Hsuf%suffix_nil_inv]; done.
    + pose proof (fs_wf_parent _ _ _ _ Hwf Hp) as Hhead.
      apply suffix_cons_case in Hsuf as [->|Hsuf]; [done|].
      destruct (decide (q = h :: head)) as [->|Hne']; [done|].
      apply IH; [by eexists|done..].
Qed.

Lemma fs_wf_dir_not_blocked fs p :
  fs_wf fs → fs !! p = Some Dir → ¬ blocked fs p.
Proof.
  intros Hwf Hp [->|(q & Hsuf & Hq)].
  - rewrite (fs_wf_nil _ Hwf) in Hp. done.
  - destruct (decide (q = p)) as [->|Hne]; [congruence|].
    destruct (decide (q = [])) as [->|Hnil].
    + rewrite (fs_wf_nil _ Hwf) in Hq. done.
    + pose proof (fs_wf_ancestors fs p q Hwf (mk_is_Some _ _ Hp)
                    Hsuf Hnil Hne).
      congruence.
Qed.

Lemma blocked_grows names fs fs' p :
  grows_towards names fs fs' → blocked fs' p ↔ blocked fs p.
Proof.
  intros [Hsub Hnew]. unfold blocked.
  assert (Hfile : ∀ q, fs' !! q = Some File ↔ fs !! q = Some File).
  { intros q. split; intros Hq.
    - destruct (fs !! q) as [n|] eqn:Hfs.
      + pose proof (lookup_weaken _ _ _ _ Hfs Hsub). congruence.
      + destruct (Hnew q Hfs) as [Hd _]; [by eexists|congruence].
    - by apply (lookup_weaken _ _ _ _ Hq). }
  split; (intros [->|(q & Hsuf & Hq)]; [by left|right]);
    exists q; by rewrite ?Hfile in *.
Qed.

Lemma mkdir_under_directory tail head fs :
  (head = [] ∨ fs !! head = Some Dir) → fs !! (tail :: head) = None →
  mkdir (tail :: head) fs = (Ok (), <[tail :: head := Dir]> fs).
Proof.
  intros Hhead Hfree. unfold mkdir.
  rewrite (bool_decide_eq_false_2 (is_Some (fs !! (tail :: head))));
    [|rewrite Hfree; by intros [? ?]].
  destruct Hhead as [->|Hdir]; [done|].
  destruct head as [|h head]; [done|]. by rewrite Hdir.
Qed.

(** [makedirs] on a path that does not exist succeeds unless the path is
    blocked. *)
Lemma makedirs_not_blocked name fs :
  fs_wf fs → fs !! name = None → ¬ blocked fs name →
  ∃ fs', makedirs name fs = (Ok (), fs').
Proof.
  revert fs. induction name as [|tail head IH]; intros fs Hwf Hfree Hnb.
  - destruct Hnb. by left.
  - cbn [makedirs].
    unfold mbind, fsio_bind, path_exists, mret, fsio_ret.
    assert (Hhead_nb : head ≠ [] → ¬ blocked fs head).
    { intros Hne [->|(q & Hsuf & Hq)]; [done|].
      apply Hnb. right. exists q. split; [by apply suffix_cons_r|done]. }
    case_bool_decide as Hne; cbn [andb];
      [case_bool_decide as Hex; cbn [negb]|].
    + destruct Hex as [[] Hn].
      * destruct Hnb. right. exists head.
        split; [by apply suffix_cons_r|done].
      * eexists. apply mkdir_under_directory; [by right|done].
    + apply eq_None_not_Some in Hex.
      destruct (IH fs Hwf Hex (Hhead_nb Hne)) as [fs1 Hmk]. rewrite Hmk.
      pose proof Hmk as [[Hsub Hnew] [[_ Hdir]|(? & ? & ? & _)]]%makedirs_grows;
        [|done].
      eexists. apply mkdir_under_directory; [by right|].
      destruct (fs1 !! (tail :: head)) as [n|] eqn:Hn; [|done].
      destruct (Hnew (tail :: head) Hfree) as (_ & p & Hp & Hsuf);
        [by eexists|].
      apply list_elem_of_singleton in Hp as ->.
      by apply suffix_longer in Hsuf.
    + subst head. eexists.
      apply mkdir_under_directory; [by left|done].
Qed.

(** One turn of the loop succeeds exactly when the path is not blocked. *)
Lemma create_missing_folders_single_iff p fs :
  fs_wf fs →
  (create_missing_folders [p] fs).1 = Ok () ↔ ¬ blocked fs p.
Proof.
  intros Hwf. split.
  - destruct (create_missing_folders [p] fs) as [r fs'] eqn:Hrun.
    intros Hr. simpl in Hr. subst r.
    pose proof (create_missing_folders_keeps_wf _ _ _ _ Hwf Hrun) as Hwf'.
    apply create_missing_folders_ok in Hrun as [Hg Hdirs].
    rewrite <- (blocked_grows _ _ _ _ Hg).
    apply fs_wf_dir_not_blocked; [done|]. apply Hdirs, list_elem_of_here.
  - intros Hnb. cbn [create_missing_folders].
    unfold mbind, fsio_bind, path_exists, path_isdir, raise, mret, fsio_ret.
    case_bool_decide as Hex; cbn [negb].
    + case_bool_decide as Hdir; cbn [negb]; [done|].
      destruct Hnb. right. exists p. split; [done|].
      destruct Hex as [[] Hn]; done.
    + apply eq_None_not_Some in Hex.
      by destruct (makedirs_not_blocked p fs Hwf Hex Hnb) as [fs' ->].
Qed.

Lemma create_missing_folders_succeeds_iff_aux folders fs :
  fs_wf fs →
  (create_missing_folders folders fs).1 = Ok ()
  ↔ ∀ p, p ∈ folders → ¬ blocked fs p.
Proof.
  revert fs. induction folders as [|folder folders IH]; intros fs Hwf.
  - split; [|done]. intros _ p Hp. by apply elem_of_nil in Hp.
  - rewrite create_missing_folders_cons.
    pose proof (create_missing_folders_single_iff folder fs Hwf) as Hone.
    destruct (create_missing_folders [folder] fs) as [r1 fs1] eqn:Hrun.
    pose proof (create_missing_folders_keeps_wf _ _ _ _ Hwf Hrun) as Hwf1.
    destruct r1 as [[]|e1].
    + apply create_missing_folders_ok in Hrun as [Hg _].
      rewrite (IH fs1 Hwf1). split.
      * intros Hrest p [->|Hp]%elem_of_cons; [by apply Hone|].
        rewrite <- (blocked_grows _ _ _ _ Hg). by apply Hrest.
      * intros Hall p Hp. rewrite (blocked_grows _ _ _ _ Hg).
        by apply Hall, list_elem_of_further.
    + split; [done|]. intros Hall.
      assert (Hnb : ¬ blocked fs folder) by apply Hall, list_elem_of_here.
      apply Hone in Hnb. done.
Qed.



(** What a successful call leaves, in a well-formed tree: what existed is
    unchanged, and what is new is a directory at each listed path and at
    each of its ancestors, and nothing else. *)
Lemma create_missing_folders_result folders fs fs' :
  fs_wf fs →
  create_missing_folders folders fs = (Ok (), fs') →
  ∀ q n,
    fs' !! q = Some n
    ↔ fs !! q = Some n
      ∨ (n = Dir ∧ fs !! q = None ∧ q ≠ []
         ∧ ∃ p, p ∈ folders ∧ q `suffix_of` p).
Proof.
  intros Hwf Hrun q n.
  pose proof (create_missing_folders_keeps_wf _ _ _ _ Hwf Hrun) as Hwf'.
  apply create_missing_folders_ok in Hrun as [[Hsub Hnew] Hdirs].
  split.
  - intros Hq. destruct (fs !! q) as [m|] eqn:Hfs.
    + left. pose proof (lookup_weaken _ _ _ _ Hfs Hsub). congruence.
    + right. destruct (Hnew q Hfs) as [Hd Hp]; [by eexists|].
      split; [congruence|]. split; [done|]. split; [|done].
      intros ->. rewrite (fs_wf_nil _ Hwf') in Hq. done.
  - intros [Hq|(-> & _ & Hne & p & Hp & Hsuf)].
    + by apply (lookup_weaken _ _ _ _ Hq).
    + destruct (decide (q = p)) as [->|Hqp]; [by apply Hdirs|].
      apply (fs_wf_ancestors fs' p q); [done| |done..].
      rewrite (Hdirs p Hp). by eexists.
Qed.

Theorem create_missing_folders_final_state
    (folders : list path) (fs fs' : gmap path node) :
  fs_wf fs →
  create_missing_folders folders fs = (Ok (), fs') →
  ∀ q n,
    fs' !! q = Some n
    ↔ fs !! q = Some n
      ∨ (n = Dir ∧ fs !! q = None ∧ q ≠ []
         ∧ ∃ p, p ∈ folders ∧ q `suffix_of` p).
Proof. apply create_missing_folders_result. Qed.

Lemma create_missing_folders_final_state_witness :
  fs_wf (∅ : gmap path node)
  ∧ create_missing_folders [["c"; "b"; "a"]] ∅ = (Ok (), fs_abc)
  ∧ fs_abc !! ["b"; "a"] = Some Dir.
Proof.
  assert (Hwf : fs_wf (∅ : gmap path node)) by apply map_Forall_empty.
  assert (Hrun : create_missing_folders [["c"; "b"; "a"]] ∅ = (Ok (), fs_abc))
    by (vm_compute; reflexivity).
  split; [exact Hwf|]. split; [exact Hrun|].
  apply (create_missing_folders_final_state _ _ _ Hwf Hrun).
  right. split; [reflexivity|]. split; [reflexivity|]. split; [discriminate|].
  exists ["c"; "b"; "a"]. split; [apply list_elem_of_here|].
  by exists ["c"].
Defined.

(** The order of the list does not matter to a call that succeeds: any
    rearrangement of the paths succeeds too and leaves the same tree. *)
Theorem create_missing_folders_permutation
    (folders folders' : list path) (fs fs' : gmap path node) :
  fs_wf fs → folders ≡ₚ folders' →
  create_missing_folders folders fs = (Ok (), fs') →
  create_missing_folders folders' fs = (Ok (), fs').
Proof.
  intros Hwf Hperm Hrun.
  assert (Hok : (create_missing_folders folders' fs).1 = Ok ()).
  { apply create_missing_folders_succeeds_iff_aux; [done|].
    intros p Hp.
    apply (proj1 (create_missing_folders_succeeds_iff_aux folders fs Hwf));
      [by rewrite Hrun|by rewrite Hperm]. }
  destruct (create_missing_folders folders' fs) as [r fs''] eqn:Hrun'.
  simpl in Hok. subst r. f_equal.
  apply map_eq. intros q. apply option_eq. intros n.
  rewrite (create_missing_folders_result _ _ _ Hwf Hrun').
  rewrite (create_missing_folders_result _ _ _ Hwf Hrun).
  by setoid_rewrite Hperm.
Qed.

Lemma create_missing_folders_permutation_witness :
  fs_wf (∅ : gmap path node)
  ∧ [["b"; "a"]; ["a"]; ["c"]] ≡ₚ [["c"]; ["a"]; ["b"; "a"]]
  ∧ create_missing_folders [["c"]; ["a"]; ["b"; "a"]] ∅
    = create_missing_folders [["b"; "a"]; ["a"]; ["c"]] ∅.
Proof.
  assert (Hwf : fs_wf (∅ : gmap path node)) by apply map_Forall_empty.
  assert (Hperm : [["b"; "a"]; ["a"]; ["c"]] ≡ₚ [["c"]; ["a"]; ["b"; "a"]]).
  { exact (Permutation_rev [["b"; "a"]; ["a"]; ["c"]]). }
  split; [exact Hwf|]. split; [exact Hperm|].
  destruct (create_missing_folders [["b"; "a"]; ["a"]; ["c"]] ∅)
    as [[[]|e] fs'] eqn:Hrun.
  - exact (create_missing_folders_permutation _ _ _ _ Hwf Hperm Hrun).
  - vm_compute in Hrun. discriminate Hrun.
Defined.

(** ** More on [format_benchmark] *)

(** A precision that a format specification cannot carry (negative, or
    above [INT_MAX]) makes the call raise on every mapping that is not
    empty, at its first entry: from [float] when the first value does not
    convert, else from the power when it overflows, else from the
    formatting.  No text is ever returned. *)
Theorem format_benchmark_bad_precision (params : parameters) (precision : Z) :
  precision < 0 ∨ INT_MAX < precision →
  params ≠ [] →
  ∃ e, format_benchmark params precision = Raise e
       ∧ (e = FormatSpecError ∨ e = PowOverflowError
          ∨ ∃ kind, e = ConversionError kind).
Proof.
  intros Hp Hne. destruct params as [|[key value] items]; [done|].
  unfold format_benchmark. cbn [format_benchmark_loop].
  destruct (py_float value) as [x|e] eqn:Hx; simpl.
  - destruct (float_pow10 (- precision)) as [t|e] eqn:Ht; simpl.
    + assert (Hfmt : ∀ ty, str_format ty precision x = Raise FormatSpecError).
      { intros ty. unfold str_format.
        destruct (Z.leb_spec 0 precision); [|done].
        destruct (Z.leb_spec precision INT_MAX); [lia|done]. }
      exists FormatSpecError. rewrite !Hfmt. split; [|by left].
      by destruct (_ || _).
    + exists e. split; [done|]. right. left.
      unfold float_pow10 in Ht.
      destruct (int_to_binary64 (- precision)); try destruct (pow10 _);
        first [discriminate Ht | by injection Ht as <-].
  - exists e. split; [done|]. right. right. by eapply py_float_raise.
Qed.

Lemma format_benchmark_bad_precision_witness :
  (-1 < 0 ∨ INT_MAX < -1)
  ∧ [("x", PyFloat 1)] ≠ []
  ∧ ∃ e, format_benchmark [("x", PyFloat 1)] (-1) = Raise e.
Proof.
  assert (Hp : -1 < 0 ∨ INT_MAX < -1) by (left; lia).
  assert (Hne : [("x", PyFloat 1)] ≠ []) by discriminate.
  split; [exact Hp|]. split; [exact Hne|].
  destruct (format_benchmark_bad_precision _ _ Hp Hne) as (e & He & _).
  exists e. exact He.
Defined.

Lemma mapM_result_app {A B} (f : A → result B) (xs ys : list A) :
  mapM f (xs ++ ys)
  = a ← mapM f xs; b ← mapM f ys; Ok (a ++ b).
Proof.
  induction xs as [|x xs IH]; simpl.
  - by destruct (mapM f ys).
  - destruct (f x) as [y|e]; simpl; [|done]. rewrite IH.
    destruct (mapM f xs) as [a|e]; simpl; [|done].
    by destruct (mapM f ys).
Qed.

Lemma mapM_result_length {A B} (f : A → result B) (xs : list A) (ys : list B) :
  mapM f xs = Ok ys → length ys = length xs.
Proof.
  revert ys. induction xs as [|x xs IH]; intros ys; simpl.
  - by intros [= <-].
  - destruct (f x) as [y|e]; simpl; [|done].
    destruct (mapM f xs) as [a|e]; simpl; [|done].
    intros [= <-]. simpl. by rewrite (IH a).
Qed.

Lemma concat_app (a b : list string) :
  a ≠ [] → b ≠ [] →
  String.concat ", " (a ++ b)
  = String.concat ", " a +:+ ", " +:+ String.concat ", " b.
Proof.
  intros Ha Hb. induction a as [|x a IH]; [done|].
  destruct a as [|y a].
  - destruct b as [|z b]; done.
  - change (String.concat ", " ((x :: y :: a) ++ b))
      with (x +:+ ", " +:+ String.concat ", " ((y :: a) ++ b)).
    rewrite IH by done.
    change (String.concat ", " (x :: y :: a))
      with (x +:+ ", " +:+ String.concat ", " (y :: a)).
    by rewrite !string_app_assoc.
Qed.

(** Formatting two mappings one after the other and joining the two texts
    with [", "] is formatting the mapping that lists the entries of the
    first and then those of the second; an exception of the first goes
    before one of the second. *)
Theorem format_benchmark_app (xs ys : parameters) (precision : Z) :
  xs ≠ [] → ys ≠ [] →
  format_benchmark (xs ++ ys) precision
  = a ← format_benchmark xs precision;
    b ← format_benchmark ys precision;
    Ok (a +:+ ", " +:+ b).
Proof.
  intros Hxs Hys. rewrite !format_benchmark_texts, mapM_result_app.
  destruct (mapM _ xs) as [a|e] eqn:Ha; simpl; [|done].
  destruct (mapM _ ys) as [b|e] eqn:Hb; simpl; [|done].
  apply mapM_result_length in Ha, Hb.
  rewrite concat_app; [done| |].
  - intros ->. by destruct xs.
  - intros ->. by destruct ys.
Qed.

Lemma format_benchmark_app_witness :
  [("a", PyFloat 1)] ≠ [] ∧ [("b", PyInt 200)] ≠ []
  ∧ format_benchmark [("a", PyFloat 1); ("b", PyInt 200)] 2
    = a ← format_benchmark [("a", PyFloat 1)] 2;
      b ← format_benchmark [("b", PyInt 200)] 2;
      Ok (a +:+ ", " +:+ b).
Proof.
  assert (Ha : [("a", PyFloat 1)] ≠ []) by discriminate.
  assert (Hb : [("b", PyInt 200)] ≠ []) by discriminate.
  split; [exact Ha|]. split; [exact Hb|].
  exact (format_benchmark_app [("a", PyFloat 1)] [("b", PyInt 200)] 2 Ha Hb).
Defined.
